(** * Latency statistics of internal/locate/statistics.go

    A shallow embedding of the ring of one-second buckets, of the packed
    count-and-total word, and of the read-side aggregations, together with
    the properties stated about them.

    Conventions.
    - [uint64] values are [Z] in [0, 2^64); every operation wraps explicitly.
    - [int64] seconds are [Z]; no arithmetic is done on them, so they never
      wrap.  Go's [int] is taken to be 64 bits wide (as on every 64-bit
      target), so [int(ts)] is [ts].
    - Go's [%] truncates toward zero: it is [Z.rem], not [Z.modulo].
    - An out-of-range array index and an integer division by zero are
      run-time panics: the operations that can panic return [option].
    - [float64] is the kernel's binary64 type, one rounding per operation (a
      product is rounded before it is added).
    - The atomic operations are sequentially consistent, so concurrent calls
      are interleavings of their atomic steps. *)

From Stdlib Require Import ZArith List Bool Lia Floats Uint63 Permutation.
Import ListNotations.
Local Open Scope Z_scope.

(** ** Machine integers *)

Definition uint64_mod : Z := 2 ^ 64.

Definition wrap64 (x : Z) : Z := x mod uint64_mod.

Definition is_uint64 (x : Z) : Prop := 0 <= x < uint64_mod.

(** ** Constants *)

Definition bucketsCount : Z := 10.

Definition counterBytes : Z := 3.

Definition counterMusk : Z := Z.shiftl 1 counterBytes - 1.

Definition numOfLastStats : nat := 5.

(** ** SingleStat and bucket *)

Record SingleStat : Type := mkStat { Count : Z; Sum : Z }.

Definition Stats : Type := list SingleStat.

Record bucket : Type := mkBucket { countAndTotal : Z; ts : Z }.

(** The zero value of the struct, as in a freshly declared [latencyStats]. *)
Definition zeroBucket : bucket := mkBucket 0 0.

(** [(ms << counterBytes) | 1] on uint64. *)
Definition composedValue (ms : Z) : Z :=
  Z.lor (wrap64 (Z.shiftl ms counterBytes)) 1.

(** The atomic operations on the two words of a bucket. *)
Definition ts_CAS (b : bucket) (old new : Z) : bool * bucket :=
  if ts b =? old then (true, mkBucket (countAndTotal b) new) else (false, b).

Definition countAndTotal_Store (b : bucket) (v : Z) : bucket :=
  mkBucket v (ts b).

Definition countAndTotal_Add (b : bucket) (d : Z) : bucket :=
  mkBucket (wrap64 (countAndTotal b + d)) (ts b).

Module Bucket.

(** [bucket.observe] run by a single goroutine: the statements in program
    order, nothing interleaved. *)
Definition observe (b : bucket) (t : Z) (ms : Z) : bucket :=
  let oldTs := ts b in
  let b1 :=
    if negb (oldTs =? t) then
      let '(won, b') := ts_CAS b oldTs t in
      if won then countAndTotal_Store b' 0 else b'
    else b in
  countAndTotal_Add b1 (composedValue ms).

Definition load (b : bucket) : SingleStat :=
  let composed := countAndTotal b in
  mkStat (Z.land composed counterMusk) (Z.shiftr composed counterBytes).

(** A run of calls at one second, in order. *)
Definition observeAll (b : bucket) (t : Z) (vs : list Z) : bucket :=
  fold_left (fun acc v => observe acc t v) vs b.

End Bucket.

Definition sumZ (vs : list Z) : Z := fold_right Z.add 0 vs.

(** ** The ring of buckets *)

(** [buckets [bucketsCount]bucket]: a list, of length [bucketsCount] in every
    well-formed value. *)
Record latencyStats : Type := mkLatencyStats { buckets : list bucket }.

Definition wf (s : latencyStats) : Prop :=
  length (buckets s) = Z.to_nat bucketsCount.

Definition newLatencyStats : latencyStats :=
  mkLatencyStats (repeat zeroBucket (Z.to_nat bucketsCount)).

(** Indexing a Go array with a run-time index: out of range is a panic. *)
Definition index (l : list bucket) (i : Z) : option bucket :=
  if (i <? 0) || (Z.of_nat (length l) <=? i) then None
  else nth_error l (Z.to_nat i).

Fixpoint set_nth (l : list bucket) (n : nat) (b : bucket) : list bucket :=
  match l, n with
  | [], _ => []
  | _ :: l', O => b :: l'
  | x :: l', S n' => x :: set_nth l' n' b
  end.

(** [time.Time] enters only through [Unix()]: a time is its Unix second. *)
Definition unixSecond (now : Z) : Z := now.

Definition bucketIndex (now : Z) : Z := Z.rem (unixSecond now) bucketsCount.

Module LatencyStats.

Definition observe (s : latencyStats) (now : Z) (val : Z)
  : option latencyStats :=
  let t := unixSecond now in
  let idx := Z.rem t bucketsCount in
  match index (buckets s) idx with
  | Some b =>
      Some (mkLatencyStats
              (set_nth (buckets s) (Z.to_nat idx) (Bucket.observe b t val)))
  | None => None
  end.

(** The slot read at iteration [i] of the loop of [getLatestStats]. *)
Definition slot (idx i : Z) : Z :=
  Z.rem (idx + bucketsCount - i) bucketsCount.

(** The loop [for i := 0; i < numOfLastStats; i++], [n] iterations left. *)
Fixpoint getLatestStats_loop (s : latencyStats) (idx : Z) (n : nat) (i : Z)
  (res : Stats) : option Stats :=
  match n with
  | O => Some res
  | S n' =>
      match index (buckets s) (slot idx i) with
      | Some b => getLatestStats_loop s idx n' (i + 1) (res ++ [Bucket.load b])
      | None => None
      end
  end.

Definition getLatestStats (s : latencyStats) (now : Z) : option Stats :=
  let idx := Z.rem (unixSecond now) bucketsCount in
  getLatestStats_loop s idx numOfLastStats 0 [].

(** A run of calls at one time, in order; a panic ends the run. *)
Fixpoint observeAll (s : latencyStats) (now : Z) (vs : list Z)
  : option latencyStats :=
  match vs with
  | [] => Some s
  | v :: vs' =>
      match observe s now v with
      | Some s' => observeAll s' now vs'
      | None => None
      end
  end.

End LatencyStats.

(** ** Aggregations *)

(** [s.Sum / s.Count] on uint64; a zero divisor panics. *)
Definition Avg (s : SingleStat) : option Z :=
  if Count s =? 0 then None else Some (Sum s / Count s).

Definition TotalCount (s : Stats) : Z :=
  fold_left (fun count st => wrap64 (count + Count st)) s 0.

(** *** float64 *)

(** The constant [0.9] rounded to binary64. *)
Definition attenuateFactor : float := 0x1.ccccccccccccdp-1%float.

(** [float64(x)] for a uint64 [x], rounded to nearest even.  [of_uint63]
    covers 63 bits; above, the value is halved keeping a sticky low bit, which
    leaves the rounding unchanged, and doubled back. *)
Definition float64_of_uint64 (x : Z) : float :=
  if x <? 2 ^ 63 then PrimFloat.of_uint63 (Uint63.of_Z x)
  else
    let y := Z.lor (Z.shiftr x 1) (Z.land x 1) in
    (PrimFloat.of_uint63 (Uint63.of_Z y) * 2)%float.

(** [uint64(f)]: the fractional part is discarded.  When the truncated value
    is not a uint64 (or [f] is not a number) Go leaves the result to the
    implementation: [None]. *)
Definition uint64_of_float64 (f : float) : option Z :=
  match Prim2SF f with
  | S754_zero _ => Some 0
  | S754_finite sign m e =>
      let v := if 0 <=? e then Z.pos m * 2 ^ e else Z.pos m / 2 ^ (- e) in
      if sign then (if v =? 0 then Some 0 else None)
      else (if v <? uint64_mod then Some v else None)
  | _ => None
  end.

(** The state of the loop of [WeightedAvg]. *)
Record wacc : Type := mkWacc
  { totalSum : float; totalCount : float; factor : float }.

Definition wacc_init : wacc := mkWacc 0 0 1.

Definition wacc_step (a : wacc) (st : SingleStat) : wacc :=
  mkWacc (totalSum a + float64_of_uint64 (Sum st) * factor a)%float
         (totalCount a + float64_of_uint64 (Count st) * factor a)%float
         (factor a * attenuateFactor)%float.

Definition WeightedAvg (s : Stats) : option Z :=
  let a := fold_left wacc_step s wacc_init in
  if (totalCount a <? 100)%float then Some 0
  else uint64_of_float64 (totalSum a / totalCount a)%float.

(** The closed form that the loop is compared with.  The weight of entry
    [i]: [1.0] multiplied [i] times by the factor. *)
Fixpoint weight (i : nat) : float :=
  match i with
  | O => 1%float
  | S j => (weight j * attenuateFactor)%float
  end.

(** Sum of [f(st_i) * weight (k + i)], added left to right onto [acc]. *)
Fixpoint weightedFrom (f : SingleStat -> Z) (k : nat) (acc : float)
  (s : Stats) : float :=
  match s with
  | [] => acc
  | st :: s' =>
      weightedFrom f (S k) (acc + float64_of_uint64 (f st) * weight k)%float s'
  end.

Definition weightedCount (s : Stats) : float := weightedFrom Count 0 0%float s.

Definition weightedSum (s : Stats) : float := weightedFrom Sum 0 0%float s.

(** ** Concurrent calls of [bucket.observe]

    Each goroutine runs [bucket.observe(t, ms)] once; between two atomic
    operations any other goroutine may run. *)

Inductive pc : Type :=
| AtLoad                 (* before [b.ts.Load()] *)
| AtCAS (oldTs : Z)      (* [oldTs != ts] held: before [b.ts.CAS(oldTs, ts)] *)
| AtStore                (* the CAS returned true: before [Store(0)] *)
| AtAdd                  (* before [b.countAndTotal.Add(composedValue)] *)
| Returned.

Record goroutine : Type := mkGoroutine { g_pc : pc; g_ms : Z }.

Record config : Type := mkConfig
  { c_bucket : bucket; c_goroutines : list goroutine }.

(** One atomic operation of one goroutine; [None] when it has returned. *)
Definition step_goroutine (t : Z) (b : bucket) (g : goroutine)
  : option (bucket * goroutine) :=
  match g_pc g with
  | AtLoad =>
      let oldTs := ts b in
      if negb (oldTs =? t) then Some (b, mkGoroutine (AtCAS oldTs) (g_ms g))
      else Some (b, mkGoroutine AtAdd (g_ms g))
  | AtCAS oldTs =>
      let '(won, b') := ts_CAS b oldTs t in
      if won then Some (b', mkGoroutine AtStore (g_ms g))
      else Some (b', mkGoroutine AtAdd (g_ms g))
  | AtStore => Some (countAndTotal_Store b 0, mkGoroutine AtAdd (g_ms g))
  | AtAdd =>
      Some (countAndTotal_Add b (composedValue (g_ms g)),
            mkGoroutine Returned (g_ms g))
  | Returned => None
  end.

Fixpoint set_goroutine (l : list goroutine) (n : nat) (g : goroutine)
  : list goroutine :=
  match l, n with
  | [], _ => []
  | _ :: l', O => g :: l'
  | x :: l', S n' => x :: set_goroutine l' n' g
  end.

(** The scheduler picks goroutine [i]. *)
Definition step (t : Z) (i : nat) (c : config) : option config :=
  match nth_error (c_goroutines c) i with
  | Some g =>
      match step_goroutine t (c_bucket c) g with
      | Some (b', g') => Some (mkConfig b' (set_goroutine (c_goroutines c) i g'))
      | None => None
      end
  | None => None
  end.

(** A schedule is the list of the picks. *)
Fixpoint run (t : Z) (sched : list nat) (c : config) : option config :=
  match sched with
  | [] => Some c
  | i :: sched' =>
      match step t i c with
      | Some c' => run t sched' c'
      | None => None
      end
  end.

Definition spawn (b : bucket) (vs : list Z) : config :=
  mkConfig b (map (mkGoroutine AtLoad) vs).

Definition returned (g : goroutine) : bool :=
  match g_pc g with Returned => true | _ => false end.

Definition all_returned (c : config) : bool := forallb returned (c_goroutines c).

(** The bucket holds no sample of second [t] yet: its window is another
    second, or it is still zero. *)
Definition clean_for (b : bucket) (t : Z) : Prop :=
  ts b <> t \/ countAndTotal b = 0.

Definition is_store (g : goroutine) : bool :=
  match g_pc g with AtStore => true | _ => false end.

Definition count (f : goroutine -> bool) (gs : list goroutine) : nat :=
  length (filter f gs).

(** Atomic operations a goroutine still has to run, at most. *)
Definition remaining (g : goroutine) : nat :=
  match g_pc g with
  | AtLoad => 4 | AtCAS _ => 3 | AtStore => 2 | AtAdd => 1 | Returned => 0
  end.

Definition remaining_all (c : config) : nat :=
  fold_right (fun g n => (remaining g + n)%nat) 0%nat (c_goroutines c).

(** A goroutine waiting at the CAS read a second other than [t]. *)
Definition cas_sane (t : Z) (g : goroutine) : Prop :=
  forall o, g_pc g = AtCAS o -> o <> t.

Definition before_cas (b : bucket) (g : goroutine) : Prop :=
  g_pc g = AtLoad \/ g_pc g = AtCAS (ts b).

(** The three phases of a bucket during the calls at the second [t]: its
    window is still another second; one goroutine has won the CAS and has not
    stored the zero yet; the word counts [k] of the calls that returned. *)
Inductive phase (t : Z) (c : config) : Prop :=
| Stale :
    ts (c_bucket c) <> t ->
    Forall (before_cas (c_bucket c)) (c_goroutines c) ->
    phase t c
| Resetting :
    ts (c_bucket c) = t ->
    count is_store (c_goroutines c) = 1%nat ->
    phase t c
| Counting (k : nat) (tot : Z) :
    ts (c_bucket c) = t ->
    count is_store (c_goroutines c) = 0%nat ->
    countAndTotal (c_bucket c) = wrap64 (8 * tot + Z.of_nat k) ->
    (k <= count returned (c_goroutines c))%nat ->
    (1 <= k \/ count returned (c_goroutines c) < length (c_goroutines c))%nat ->
    phase t c.

Definition Inv (t : Z) (c : config) : Prop :=
  Forall (cas_sane t) (c_goroutines c) /\ phase t c.

(** ** Definitions for the further properties *)

(** Two calls in a row; a panic of the first ends both. *)
Definition observe_then (s : latencyStats) (t1 v1 t2 v2 : Z)
  : option latencyStats :=
  match LatencyStats.observe s t1 v1 with
  | Some s1 => LatencyStats.observe s1 t2 v2
  | None => None
  end.

(** The samples of the goroutines that have returned, added up. *)
Definition ms_returned (gs : list goroutine) : Z :=
  fold_right (fun g n => (if returned g then g_ms g else 0) + n) 0 gs.

Definition no_cas_pending (g : goroutine) : Prop :=
  g_pc g = AtLoad \/ g_pc g = AtAdd \/ g_pc g = Returned.

(** The bucket is already at the second [t]: nobody resets it, and its word
    is the initial one plus what the returned goroutines added. *)
Definition Steady (t : Z) (b0 : bucket) (c : config) : Prop :=
  ts (c_bucket c) = t /\
  Forall no_cas_pending (c_goroutines c) /\
  countAndTotal (c_bucket c) =
  wrap64 (countAndTotal b0
          + (8 * ms_returned (c_goroutines c)
             + Z.of_nat (count returned (c_goroutines c)))).

(** The next operation of goroutine [i] is a CAS that succeeds. *)
Definition cas_would_win (c : config) (i : nat) : bool :=
  match nth_error (c_goroutines c) i with
  | Some g =>
      match g_pc g with
      | AtCAS o => ts (c_bucket c) =? o
      | _ => false
      end
  | None => false
  end.

(** The number of successful CAS operations along a schedule. *)
Fixpoint cas_wins (t : Z) (sched : list nat) (c : config) : nat :=
  match sched with
  | [] => 0
  | i :: sched' =>
      match step t i c with
      | Some c' => (if cas_would_win c i then 1 else 0) + cas_wins t sched' c'
      | None => 0
      end
  end.

(** Once nobody is between the CAS and the store, the word holds [k] of the
    returned calls and a part [tot] of their samples, all of them when no call
    is missing. *)
Definition Surviving (t : Z) (c : config) : Prop :=
  Forall (fun g => 0 <= g_ms g) (c_goroutines c) /\
  (ts (c_bucket c) = t ->
   count is_store (c_goroutines c) = 0%nat ->
   exists (k : nat) (tot : Z),
     countAndTotal (c_bucket c) = wrap64 (8 * tot + Z.of_nat k) /\
     (k <= count returned (c_goroutines c))%nat /\
     0 <= tot <= ms_returned (c_goroutines c) /\
     (k = count returned (c_goroutines c) ->
      tot = ms_returned (c_goroutines c))).

(** The values of a three-bit count field. *)
Definition counts8 : list Z := [0; 1; 2; 3; 4; 5; 6; 7].

(** Every snapshot of five three-bit counts stays below the threshold of
    [WeightedAvg], checked over the 8^5 cases. *)
Definition all_below_threshold : bool :=
  forallb (fun c0 => forallb (fun c1 => forallb (fun c2 =>
  forallb (fun c3 => forallb (fun c4 =>
    (weightedCount [mkStat c0 0; mkStat c1 0; mkStat c2 0; mkStat c3 0;
                    mkStat c4 0] <? 100)%float)
  counts8) counts8) counts8) counts8) counts8.

Ltac wrap64_lia :=
  unfold wrap64, uint64_mod;
  change (2 ^ 64) with 18446744073709551616;
  Z.to_euclidean_division_equations; lia.

(** ** Arithmetic of the packed word *)

Lemma lor_1_even (a : Z) : Z.lor (2 * a) 1 = 2 * a + 1.
Proof.
  assert (H : Z.land (2 * a) 1 = 0).
  { change 1 with (Z.ones 1). rewrite Z.land_ones by lia.
    change (2 ^ 1) with 2. rewrite Z.mul_comm. apply Z.mod_mul. lia. }
  rewrite <- (Z.lxor_lor _ _ H). symmetry. apply Z.add_nocarry_lxor, H.
Qed.

Lemma composedValue_eq (ms : Z) : composedValue ms = wrap64 (8 * ms) + 1.
Proof.
  unfold composedValue, wrap64, uint64_mod, counterBytes.
  rewrite Z.shiftl_mul_pow2 by lia.
  change (2 ^ 3) with 8. rewrite (Z.mul_comm ms 8).
  change (2 ^ 64) with (8 * 2 ^ 61).
  rewrite Z.mul_mod_distr_l by lia.
  replace (8 * (ms mod 2 ^ 61)) with (2 * (4 * (ms mod 2 ^ 61))) by lia.
  apply lor_1_even.
Qed.

Lemma wrap64_idemp_add_l (a b : Z) : wrap64 (wrap64 a + b) = wrap64 (a + b).
Proof. unfold wrap64. apply Zplus_mod_idemp_l. Qed.

(** The count field of a packed word [8 * S + n]. *)
Lemma packed_count (S n : Z) : Z.land (wrap64 (8 * S + n)) counterMusk = n mod 8.
Proof.
  change counterMusk with (Z.ones 3). rewrite Z.land_ones by lia.
  change (2 ^ 3) with 8. unfold wrap64, uint64_mod.
  change (2 ^ 64) with 18446744073709551616.
  Z.to_euclidean_division_equations. lia.
Qed.

(** The sum field of a packed word [8 * S + n]. *)
Lemma packed_sum (S n : Z) :
  Z.shiftr (wrap64 (8 * S + n)) counterBytes = (S + n / 8) mod 2 ^ 61.
Proof.
  unfold counterBytes. rewrite Z.shiftr_div_pow2 by lia.
  change (2 ^ 3) with 8. unfold wrap64, uint64_mod.
  change (2 ^ 64) with 18446744073709551616.
  change (2 ^ 61) with 2305843009213693952.
  Z.to_euclidean_division_equations. lia.
Qed.

(** ** A single goroutine on one bucket *)

Lemma observe_same_second (b : bucket) (t v : Z) :
  ts b = t ->
  Bucket.observe b t v =
  mkBucket (wrap64 (countAndTotal b + composedValue v)) t.
Proof.
  intros H. unfold Bucket.observe. rewrite H, Z.eqb_refl. cbn.
  unfold countAndTotal_Add. rewrite H. reflexivity.
Qed.

Lemma observe_other_second (b : bucket) (t v : Z) :
  ts b <> t ->
  Bucket.observe b t v = mkBucket (wrap64 (composedValue v)) t.
Proof.
  intros H. unfold Bucket.observe, ts_CAS.
  apply Z.eqb_neq in H. rewrite H, Z.eqb_refl. reflexivity.
Qed.

Lemma observe_ts (b : bucket) (t v : Z) : ts (Bucket.observe b t v) = t.
Proof.
  destruct (Z.eq_dec (ts b) t) as [E | E].
  - rewrite observe_same_second by exact E. reflexivity.
  - rewrite observe_other_second by exact E. reflexivity.
Qed.

Lemma observeAll_same_second (vs : list Z) : forall (v : Z) (b : bucket) (t : Z),
  ts b = t ->
  Bucket.observeAll b t (v :: vs) =
  mkBucket
    (wrap64 (countAndTotal b
             + (8 * sumZ (v :: vs) + Z.of_nat (length (v :: vs))))) t.
Proof.
  induction vs as [| w vs IH]; intros v b t Hts.
  - cbn [Bucket.observeAll fold_left]. rewrite observe_same_second by exact Hts.
    f_equal. rewrite composedValue_eq. cbn [sumZ fold_right length].
    change (Z.of_nat 1) with 1. wrap64_lia.
  - change (Bucket.observeAll b t (v :: w :: vs))
      with (Bucket.observeAll (Bucket.observe b t v) t (w :: vs)).
    rewrite (IH w _ t (observe_ts b t v)).
    rewrite observe_same_second by exact Hts. cbn [countAndTotal].
    f_equal. rewrite composedValue_eq.
    cbn [sumZ fold_right]. fold (sumZ vs).
    change (length (v :: w :: vs)) with (S (length (w :: vs))).
    rewrite Nat2Z.inj_succ.
    generalize (Z.of_nat (length (w :: vs))) (sumZ vs). intros n s.
    wrap64_lia.
Qed.

(** The packed word after a run of calls at second [t] on a bucket that holds
    no sample of [t] before the run. *)
Lemma observeAll_packed (vs : list Z) (b : bucket) (t : Z) :
  countAndTotal b = 0 \/ (ts b <> t /\ vs <> []) ->
  countAndTotal (Bucket.observeAll b t vs) =
  wrap64 (8 * sumZ vs + Z.of_nat (length vs)).
Proof.
  intros H. destruct vs as [| v vs].
  - destruct H as [H | [_ H]]; [| congruence]. cbn. rewrite H. reflexivity.
  - destruct (Z.eq_dec (ts b) t) as [E | E].
    + destruct H as [H | [H _]]; [| contradiction].
      rewrite observeAll_same_second by exact E. cbn [countAndTotal].
      rewrite H. reflexivity.
    + change (Bucket.observeAll b t (v :: vs))
        with (Bucket.observeAll (Bucket.observe b t v) t vs).
      rewrite observe_other_second by exact E.
      destruct vs as [| w vs].
      * cbn [Bucket.observeAll fold_left countAndTotal].
        rewrite composedValue_eq. cbn [sumZ fold_right length].
        change (Z.of_nat 1) with 1. wrap64_lia.
      * rewrite observeAll_same_second by reflexivity. cbn [countAndTotal].
        rewrite composedValue_eq. cbn [sumZ fold_right]. fold (sumZ vs).
        change (length (v :: w :: vs)) with (S (length (w :: vs))).
        rewrite Nat2Z.inj_succ.
        generalize (Z.of_nat (length (w :: vs))) (sumZ vs). intros n s.
        wrap64_lia.
Qed.

(** What [load] reports after such a run, whatever its length. *)
Lemma load_after_observeAll (vs : list Z) (b : bucket) (t : Z) :
  countAndTotal b = 0 \/ (ts b <> t /\ vs <> []) ->
  Bucket.load (Bucket.observeAll b t vs) =
  mkStat (Z.of_nat (length vs) mod 8)
         ((sumZ vs + Z.of_nat (length vs) / 8) mod 2 ^ 61).
Proof.
  intros H. unfold Bucket.load. rewrite (observeAll_packed vs b t H).
  rewrite packed_count, packed_sum. reflexivity.
Qed.

(** ** The ring *)

Lemma wf_inv (s : latencyStats) :
  wf s ->
  exists b0 b1 b2 b3 b4 b5 b6 b7 b8 b9,
    buckets s = [b0; b1; b2; b3; b4; b5; b6; b7; b8; b9].
Proof.
  unfold wf. destruct s as [l]. cbn [buckets].
  change (Z.to_nat bucketsCount) with 10%nat. intros H.
  do 10 (destruct l as [| ? l]; [discriminate H |]).
  destruct l; [| discriminate H].
  repeat eexists.
Qed.

Lemma bucketIndex_range (now : Z) : -9 <= bucketIndex now <= 9.
Proof.
  unfold bucketIndex, unixSecond, bucketsCount.
  pose proof (Z.rem_bound_abs now 10).
  destruct (Z_le_gt_dec 0 now) as [Hn | Hn].
  - pose proof (Z.rem_bound_pos now 10 Hn). lia.
  - pose proof (Z.rem_bound_pos_neg now 10). lia.
Qed.

Lemma bucketIndex_cases (now : Z) :
  let i := bucketIndex now in
  i = -9 \/ i = -8 \/ i = -7 \/ i = -6 \/ i = -5 \/ i = -4 \/ i = -3 \/
  i = -2 \/ i = -1 \/ i = 0 \/ i = 1 \/ i = 2 \/ i = 3 \/ i = 4 \/ i = 5 \/
  i = 6 \/ i = 7 \/ i = 8 \/ i = 9.
Proof. cbv zeta. pose proof (bucketIndex_range now). lia. Qed.

Lemma bucketIndex_nonneg (now : Z) :
  0 <= now -> bucketIndex now = now mod 10 /\ 0 <= bucketIndex now.
Proof.
  intros H. unfold bucketIndex, unixSecond, bucketsCount.
  rewrite Z.rem_mod_nonneg by lia.
  split; [reflexivity |]. apply Z.mod_pos_bound. lia.
Qed.

Lemma set_nth_length (l : list bucket) : forall n b,
  length (set_nth l n b) = length l.
Proof.
  induction l as [| x l IH]; intros [| n] b; cbn; try reflexivity.
  now rewrite IH.
Qed.

Lemma nth_error_set_nth (l : list bucket) : forall n b,
  (n < length l)%nat -> nth_error (set_nth l n b) n = Some b.
Proof.
  induction l as [| x l IH]; intros [| n] b H; cbn in *; try lia.
  - reflexivity.
  - apply IH. lia.
Qed.

Lemma set_nth_twice (l : list bucket) : forall n b b',
  set_nth (set_nth l n b) n b' = set_nth l n b'.
Proof.
  induction l as [| x l IH]; intros [| n] b b'; cbn; try reflexivity.
  now rewrite IH.
Qed.

Lemma set_nth_same (l : list bucket) : forall n b,
  nth_error l n = Some b -> set_nth l n b = l.
Proof.
  induction l as [| x l IH]; intros [| n] b H; cbn in *; try discriminate.
  - congruence.
  - now rewrite IH.
Qed.

Lemma index_Some (l : list bucket) (i : Z) (b : bucket) :
  index l i = Some b ->
  0 <= i < Z.of_nat (length l) /\ nth_error l (Z.to_nat i) = Some b.
Proof.
  unfold index. destruct (i <? 0) eqn:E1; [discriminate |].
  destruct (Z.of_nat (length l) <=? i) eqn:E2; [discriminate |].
  cbn. intros H. split; [lia | exact H].
Qed.

Lemma index_set_nth (l : list bucket) (i : Z) (b b' : bucket) :
  index l i = Some b -> index (set_nth l (Z.to_nat i) b') i = Some b'.
Proof.
  intros H. apply index_Some in H. destruct H as [Hr _].
  unfold index. rewrite set_nth_length.
  destruct (i <? 0) eqn:E1; [lia |].
  destruct (Z.of_nat (length l) <=? i) eqn:E2; [lia |].
  cbn. apply nth_error_set_nth. lia.
Qed.

Lemma index_in_range (s : latencyStats) (i : Z) :
  wf s -> 0 <= i < 10 -> exists b, index (buckets s) i = Some b.
Proof.
  intros Hwf Hi. unfold index. red in Hwf. rewrite Hwf.
  change (Z.of_nat (Z.to_nat bucketsCount)) with 10.
  destruct (i <? 0) eqn:E1; [lia |].
  destruct (10 <=? i) eqn:E2; [lia |]. cbn.
  destruct (nth_error (buckets s) (Z.to_nat i)) as [b |] eqn:E.
  - now exists b.
  - apply nth_error_None in E. rewrite Hwf in E.
    change (Z.to_nat bucketsCount) with 10%nat in E. lia.
Qed.

Lemma index_negative (l : list bucket) (i : Z) : i < 0 -> index l i = None.
Proof. intros H. unfold index. destruct (i <? 0) eqn:E; [reflexivity | lia]. Qed.

(** [latencyStats.observe] in terms of the bucket it routes to. *)
Lemma ring_observe_Some (s : latencyStats) (now v : Z) (b : bucket) :
  index (buckets s) (bucketIndex now) = Some b ->
  LatencyStats.observe s now v =
  Some (mkLatencyStats
          (set_nth (buckets s) (Z.to_nat (bucketIndex now))
                   (Bucket.observe b (unixSecond now) v))).
Proof.
  intros H. unfold LatencyStats.observe. fold (bucketIndex now).
  rewrite H. reflexivity.
Qed.

Lemma ring_observe_wf (s s' : latencyStats) (now v : Z) :
  wf s -> LatencyStats.observe s now v = Some s' -> wf s'.
Proof.
  unfold LatencyStats.observe, wf. intros Hwf.
  destruct (index _ _); [| discriminate].
  intros [= <-]. cbn [buckets]. now rewrite set_nth_length.
Qed.

Lemma ring_observeAll_Some (vs : list Z) :
  forall (s : latencyStats) (now : Z) (b : bucket),
  index (buckets s) (bucketIndex now) = Some b ->
  LatencyStats.observeAll s now vs =
  Some (mkLatencyStats
          (set_nth (buckets s) (Z.to_nat (bucketIndex now))
                   (Bucket.observeAll b (unixSecond now) vs))).
Proof.
  induction vs as [| v vs IH]; intros s now b H.
  - cbn. destruct s as [l]. cbn [buckets] in *.
    apply index_Some in H. destruct H as [_ H].
    now rewrite set_nth_same.
  - cbn [LatencyStats.observeAll].
    rewrite (ring_observe_Some s now v b H).
    erewrite IH; cbn [buckets].
    + rewrite set_nth_twice. reflexivity.
    + apply index_set_nth with (b := b). exact H.
Qed.

Lemma getLatestStats_unfold (s : latencyStats) (now : Z) :
  LatencyStats.getLatestStats s now =
  LatencyStats.getLatestStats_loop s (bucketIndex now) numOfLastStats 0 [].
Proof. reflexivity. Qed.

Ltac ring_cases s now Hwf :=
  let H := fresh "Hbk" in
  let E := fresh "Eidx" in
  destruct (wf_inv s Hwf) as (?b & ?b & ?b & ?b & ?b & ?b & ?b & ?b & ?b & ?b & H);
  destruct s as [?l]; cbn [buckets] in H; subst;
  pose proof (bucketIndex_cases now) as E; cbv zeta in E;
  repeat (destruct E as [E | E]).

(** The five slots read, when none of them is out of range. *)
Lemma getLatestStats_reads (s : latencyStats) (now : Z) :
  wf s -> -7 < bucketIndex now ->
  exists c0 c1 c2 c3 c4,
    index (buckets s) (LatencyStats.slot (bucketIndex now) 0) = Some c0 /\
    index (buckets s) (LatencyStats.slot (bucketIndex now) 1) = Some c1 /\
    index (buckets s) (LatencyStats.slot (bucketIndex now) 2) = Some c2 /\
    index (buckets s) (LatencyStats.slot (bucketIndex now) 3) = Some c3 /\
    index (buckets s) (LatencyStats.slot (bucketIndex now) 4) = Some c4 /\
    LatencyStats.getLatestStats s now =
    Some [Bucket.load c0; Bucket.load c1; Bucket.load c2; Bucket.load c3;
          Bucket.load c4].
Proof.
  intros Hwf Hidx. rewrite getLatestStats_unfold.
  ring_cases s now Hwf; rewrite Eidx in *; try lia;
    do 5 eexists; repeat split; reflexivity.
Qed.

(** The fifth read is out of range exactly for the indices -7, -8 and -9. *)
Lemma getLatestStats_panics (s : latencyStats) (now : Z) :
  wf s -> bucketIndex now <= -7 -> LatencyStats.getLatestStats s now = None.
Proof.
  intros Hwf Hidx. rewrite getLatestStats_unfold.
  ring_cases s now Hwf; rewrite Eidx in *; try lia; reflexivity.
Qed.

Lemma slot_0 (idx : Z) : 0 <= idx < 10 -> LatencyStats.slot idx 0 = idx.
Proof.
  intros H. unfold LatencyStats.slot, bucketsCount.
  assert (C : idx = 0 \/ idx = 1 \/ idx = 2 \/ idx = 3 \/ idx = 4 \/ idx = 5 \/
              idx = 6 \/ idx = 7 \/ idx = 8 \/ idx = 9) by lia.
  repeat (destruct C as [C | C]); subst idx; reflexivity.
Qed.

Lemma sumZ_nonneg (vs : list Z) : Forall is_uint64 vs -> 0 <= sumZ vs.
Proof.
  induction 1 as [| v vs Hv _ IH]; cbn; [lia |].
  fold (sumZ vs). unfold is_uint64 in Hv. lia.
Qed.

Lemma observeAll_ts (vs : list Z) : forall (b : bucket) (t : Z),
  vs <> [] -> ts (Bucket.observeAll b t vs) = t.
Proof.
  induction vs as [| v vs IH]; intros b t H; [congruence |].
  change (Bucket.observeAll b t (v :: vs))
    with (Bucket.observeAll (Bucket.observe b t v) t vs).
  destruct vs as [| w vs].
  - apply observe_ts.
  - apply IH. discriminate.
Qed.

(** An exact run: at most seven samples whose sum fits the sum field. *)
Lemma load_exact (vs : list Z) (b : bucket) (t : Z) :
  Forall is_uint64 vs -> (length vs <= 7)%nat -> sumZ vs < 2 ^ 61 ->
  countAndTotal b = 0 \/ (ts b <> t /\ vs <> []) ->
  Bucket.load (Bucket.observeAll b t vs) =
  mkStat (Z.of_nat (length vs)) (sumZ vs).
Proof.
  intros Hu Hn Hs Hb. rewrite (load_after_observeAll vs b t Hb).
  pose proof (sumZ_nonneg vs Hu) as H0.
  f_equal.
  - apply Z.mod_small. lia.
  - rewrite (Z.div_small (Z.of_nat _)) by lia.
    rewrite Z.add_0_r. apply Z.mod_small. lia.
Qed.

(** A run through the ring, for the bucket [b] that the second [t] indexes:
    the calls return, and the first entry of the snapshot at [t] is the load
    of that bucket. *)
Lemma ring_run (t : Z) (vs : list Z) (s : latencyStats) (b : bucket) :
  wf s ->
  index (buckets s) (bucketIndex t) = Some b ->
  exists s' rest,
    LatencyStats.observeAll s t vs = Some s' /\
    wf s' /\
    index (buckets s') (bucketIndex t) = Some (Bucket.observeAll b t vs) /\
    LatencyStats.getLatestStats s' t =
    Some (Bucket.load (Bucket.observeAll b t vs) :: rest).
Proof.
  intros Hwf Hidx.
  pose proof (ring_observeAll_Some vs s t b Hidx) as Hrun.
  set (s' := mkLatencyStats _) in Hrun.
  assert (Hwf' : wf s').
  { unfold wf, s'. cbn [buckets]. rewrite set_nth_length. exact Hwf. }
  assert (Hidx' : index (buckets s') (bucketIndex t)
                  = Some (Bucket.observeAll b (unixSecond t) vs)).
  { unfold s'. cbn [buckets]. now apply index_set_nth with (b := b). }
  pose proof (index_Some _ _ _ Hidx) as [Hr _]. red in Hwf. rewrite Hwf in Hr.
  change (Z.of_nat (Z.to_nat bucketsCount)) with 10 in Hr.
  destruct (getLatestStats_reads s' t Hwf' ltac:(lia))
    as (c0 & c1 & c2 & c3 & c4 & H0 & _ & _ & _ & _ & Hget).
  rewrite slot_0 in H0 by exact Hr. rewrite Hidx' in H0.
  injection H0 as <-.
  exists s', [Bucket.load c1; Bucket.load c2; Bucket.load c3; Bucket.load c4].
  split; [exact Hrun |]. split; [exact Hwf' |]. split; [exact Hidx' |].
  exact Hget.
Qed.

(** Past a boundary only the new samples count: the bucket is as if it had
    been zero at the new second. *)
Lemma observeAll_reset (vs : list Z) (b : bucket) (t : Z) :
  ts b <> t -> vs <> [] ->
  Bucket.observeAll b t vs = Bucket.observeAll (mkBucket 0 t) t vs.
Proof.
  intros Hts Hne. destruct vs as [| v vs]; [congruence |].
  change (Bucket.observeAll b t (v :: vs))
    with (Bucket.observeAll (Bucket.observe b t v) t vs).
  change (Bucket.observeAll (mkBucket 0 t) t (v :: vs))
    with (Bucket.observeAll (Bucket.observe (mkBucket 0 t) t v) t vs).
  rewrite observe_other_second by exact Hts.
  rewrite observe_same_second by reflexivity. reflexivity.
Qed.

Lemma Count_range (b : bucket) : 0 <= Count (Bucket.load b) <= 7.
Proof.
  unfold Bucket.load. cbn [Count]. change counterMusk with (Z.ones 3).
  rewrite Z.land_ones by lia.
  pose proof (Z.mod_pos_bound (countAndTotal b) (2 ^ 3) ltac:(lia)).
  change (2 ^ 3) with 8 in *. lia.
Qed.

(** ** The properties *)

(** C1. N calls of observe by one goroutine, all at the second [t], with
    N <= 7 and a sum that fits the 61-bit field, on a bucket that holds no
    sample of [t] beforehand: [load] yields Count = N and Sum = the exact sum.
    The same through the ring: the calls on a [latencyStats] return, and the
    first entry of [getLatestStats] at [t] is that bucket's snapshot. *)
Theorem observe_same_second_exact (t : Z) (vs : list Z) :
  Forall is_uint64 vs -> (length vs <= 7)%nat -> sumZ vs < 2 ^ 61 ->
  (forall b : bucket,
      countAndTotal b = 0 \/ (ts b <> t /\ vs <> []) ->
      Bucket.load (Bucket.observeAll b t vs) =
      mkStat (Z.of_nat (length vs)) (sumZ vs)) /\
  (forall (s : latencyStats) (b : bucket),
      wf s ->
      index (buckets s) (bucketIndex t) = Some b ->
      countAndTotal b = 0 \/ (ts b <> t /\ vs <> []) ->
      exists s' rest,
        LatencyStats.observeAll s t vs = Some s' /\
        wf s' /\
        LatencyStats.getLatestStats s' t =
        Some (mkStat (Z.of_nat (length vs)) (sumZ vs) :: rest)).
Proof.
  intros Hu Hn Hs. split.
  - intros b Hb. now apply load_exact.
  - intros s b Hwf Hidx Hb.
    destruct (ring_run t vs s b Hwf Hidx)
      as (s' & rest & Hrun & Hwf' & _ & Hget).
    exists s', rest. rewrite load_exact in Hget by assumption. auto.
Qed.

Lemma observe_same_second_exact_witness :
  Bucket.load (Bucket.observeAll zeroBucket 1700000000 [10; 20; 30]) =
  mkStat 3 60 /\
  exists s' rest,
    LatencyStats.observeAll newLatencyStats 1700000000 [10; 20; 30] = Some s' /\
    wf s' /\
    LatencyStats.getLatestStats s' 1700000000 = Some (mkStat 3 60 :: rest).
Proof.
  assert (Hu : Forall is_uint64 [10; 20; 30]).
  { repeat constructor; unfold is_uint64, uint64_mod; cbn; lia. }
  assert (Hn : (length [10; 20; 30] <= 7)%nat) by (cbn; lia).
  assert (Hs : sumZ [10; 20; 30] < 2 ^ 61) by (cbn; lia).
  destruct (observe_same_second_exact 1700000000 [10; 20; 30] Hu Hn Hs)
    as [Hb Hr].
  split.
  - apply (Hb zeroBucket). left. reflexivity.
  - apply (Hr newLatencyStats zeroBucket).
    + reflexivity.
    + reflexivity.
    + left. reflexivity.
Defined.

(** C5. The count field is three bits wide, so 7 is the largest count it
    holds.  A run of more than seven calls at one second carries out of it
    into the sum field: [load] reports the count modulo 8, which is not the
    count, and a sum raised by the number of carries; after exactly eight
    calls it reports Count = 0 and Sum = sum + 1. *)
Theorem count_field_overflow (b : bucket) (t : Z) (vs : list Z) :
  countAndTotal b = 0 \/ (ts b <> t /\ vs <> []) ->
  (7 < length vs)%nat ->
  let n := Z.of_nat (length vs) in
  let st := Bucket.load (Bucket.observeAll b t vs) in
  counterBytes = 3 /\ counterMusk = 7 /\
  (forall b0 : bucket, 0 <= Count (Bucket.load b0) <= 7) /\
  Count st = n mod 8 /\
  Count st < n /\
  Sum st = (sumZ vs + n / 8) mod 2 ^ 61 /\
  (Forall is_uint64 vs -> sumZ vs + n / 8 < 2 ^ 61 ->
   Sum st = sumZ vs + n / 8 /\
   sumZ vs < Sum st /\
   (length vs = 8%nat -> st = mkStat 0 (sumZ vs + 1))).
Proof.
  intros Hb Hn n st.
  assert (Hst : st = mkStat (n mod 8) ((sumZ vs + n / 8) mod 2 ^ 61)).
  { unfold st. now rewrite (load_after_observeAll vs b t Hb). }
  rewrite Hst. cbn [Count Sum].
  pose proof (Z.mod_pos_bound n 8 ltac:(lia)) as Hmod.
  assert (H8 : 1 <= n / 8) by (apply Z.div_le_lower_bound; lia).
  split; [reflexivity |]. split; [reflexivity |].
  split; [exact Count_range |].
  split; [reflexivity |]. split; [lia |]. split; [reflexivity |].
  intros Hu Hs. pose proof (sumZ_nonneg vs Hu) as H0.
  rewrite Z.mod_small by lia.
  split; [reflexivity |]. split; [lia |].
  intros E. unfold n. rewrite E. reflexivity.
Qed.

Lemma count_field_overflow_witness :
  Bucket.load (Bucket.observeAll zeroBucket 42 [1; 2; 3; 4; 5; 6; 7; 8]) =
  mkStat 0 37.
Proof.
  assert (Hb : countAndTotal zeroBucket = 0 \/
               (ts zeroBucket <> 42 /\ [1; 2; 3; 4; 5; 6; 7; 8] <> []))
    by (left; reflexivity).
  assert (Hn : (7 < length [1; 2; 3; 4; 5; 6; 7; 8])%nat) by (cbn; lia).
  assert (Hu : Forall is_uint64 [1; 2; 3; 4; 5; 6; 7; 8]).
  { repeat constructor; unfold is_uint64, uint64_mod; cbn; lia. }
  destruct (count_field_overflow zeroBucket 42 [1; 2; 3; 4; 5; 6; 7; 8] Hb Hn)
    as (_ & _ & _ & _ & _ & _ & H).
  apply H.
  - exact Hu.
  - cbn. lia.
  - reflexivity.
Defined.



Lemma bucketIndex_plus_10 (t : Z) :
  0 <= bucketIndex t -> bucketIndex (t + 10) = bucketIndex t.
Proof.
  unfold bucketIndex, unixSecond, bucketsCount. intros H.
  destruct (Z_le_gt_dec 0 t) as [Ht | Ht].
  - rewrite !Z.rem_mod_nonneg by lia.
    replace (t + 10) with (t + 1 * 10) by lia. apply Z.mod_add. lia.
  - pose proof (Z.rem_nonpos t 10 ltac:(lia) ltac:(lia)) as Hb.
    assert (E : Z.rem t 10 = 0) by lia.
    pose proof (Z.quot_rem' t 10) as Hq. rewrite E in Hq. rewrite E.
    set (q := Z.quot t 10) in Hq.
    replace (t + 10) with ((q + 1) * 10) by lia.
    apply Z.rem_mul. lia.
Qed.

(** C6. Ring wraparound.  Once writes at the second [t] have gone through,
    the second [t + 10] has the same index, so a write there lands in the same
    slot; the calls at [t + 10] return, and the slot is then as a zeroed one
    would be after them: [load], and the first entry of [getLatestStats],
    show the samples of [t + 10] only. *)
Theorem ring_wraparound (s s1 : latencyStats) (t : Z) (ws vs : list Z) :
  wf s ->
  ws <> [] ->
  LatencyStats.observeAll s t ws = Some s1 ->
  vs <> [] ->
  bucketIndex (t + 10) = bucketIndex t /\
  exists s2 b2 rest,
    LatencyStats.observeAll s1 (t + 10) vs = Some s2 /\
    index (buckets s2) (bucketIndex t) = Some b2 /\
    b2 = Bucket.observeAll (mkBucket 0 (t + 10)) (t + 10) vs /\
    LatencyStats.getLatestStats s2 (t + 10) = Some (Bucket.load b2 :: rest) /\
    Bucket.load b2 =
    mkStat (Z.of_nat (length vs) mod 8)
           ((sumZ vs + Z.of_nat (length vs) / 8) mod 2 ^ 61) /\
    (Forall is_uint64 vs -> (length vs <= 7)%nat -> sumZ vs < 2 ^ 61 ->
     Bucket.load b2 = mkStat (Z.of_nat (length vs)) (sumZ vs)).
Proof.
  intros Hwf Hws Hobs Hne.
  destruct (index (buckets s) (bucketIndex t)) as [b |] eqn:Hidx.
  2:{ destruct ws as [| w ws]; [congruence |].
      cbn [LatencyStats.observeAll] in Hobs.
      unfold LatencyStats.observe in Hobs. fold (bucketIndex t) in Hobs.
      rewrite Hidx in Hobs. discriminate. }
  rewrite (ring_observeAll_Some ws s t b Hidx) in Hobs. injection Hobs as <-.
  pose proof (index_Some _ _ _ Hidx) as [Hr _].
  assert (Hsame : bucketIndex (t + 10) = bucketIndex t)
    by (apply bucketIndex_plus_10; lia).
  split; [exact Hsame |].
  set (b1 := Bucket.observeAll b (unixSecond t) ws).
  set (s1 := mkLatencyStats _) in *.
  assert (Hwf1 : wf s1).
  { unfold wf, s1. cbn [buckets]. rewrite set_nth_length. exact Hwf. }
  assert (Hidx1 : index (buckets s1) (bucketIndex (t + 10)) = Some b1).
  { rewrite Hsame. unfold s1. cbn [buckets].
    now apply index_set_nth with (b := b). }
  assert (Hts : ts b1 <> t + 10).
  { unfold b1. rewrite observeAll_ts by exact Hws. unfold unixSecond. lia. }
  destruct (ring_run (t + 10) vs s1 b1 Hwf1 Hidx1)
    as (s2 & rest & Hrun & _ & Hb2 & Hget).
  exists s2, (Bucket.observeAll b1 (t + 10) vs), rest.
  split; [exact Hrun |]. split; [rewrite <- Hsame; exact Hb2 |].
  split; [now apply observeAll_reset |].
  split; [exact Hget |].
  split.
  - apply load_after_observeAll. right. now split.
  - intros Hu Hn Hs. apply load_exact; try assumption. right. now split.
Qed.

Lemma ring_wraparound_witness :
  exists s1,
    LatencyStats.observeAll newLatencyStats 1700000003 [5; 6] = Some s1 /\
    bucketIndex (1700000003 + 10) = bucketIndex 1700000003 /\
    exists s2 b2 rest,
      LatencyStats.observeAll s1 (1700000003 + 10) [7; 9] = Some s2 /\
      index (buckets s2) (bucketIndex 1700000003) = Some b2 /\
      b2 = Bucket.observeAll (mkBucket 0 (1700000003 + 10))
                             (1700000003 + 10) [7; 9] /\
      LatencyStats.getLatestStats s2 (1700000003 + 10) =
      Some (Bucket.load b2 :: rest) /\
      Bucket.load b2 = mkStat 2 16 /\
      (Forall is_uint64 [7; 9] -> (length [7; 9] <= 7)%nat ->
       sumZ [7; 9] < 2 ^ 61 -> Bucket.load b2 = mkStat 2 16).
Proof.
  destruct (LatencyStats.observeAll newLatencyStats 1700000003 [5; 6])
    as [s1 |] eqn:E; [| discriminate E].
  exists s1. split; [reflexivity |].
  apply (ring_wraparound newLatencyStats s1 1700000003 [5; 6] [7; 9]).
  - reflexivity.
  - discriminate.
  - exact E.
  - discriminate.
Defined.

Lemma slot_math_mod (now i : Z) :
  -7 < bucketIndex now -> 0 <= i < 5 ->
  LatencyStats.slot (bucketIndex now) i = (unixSecond now mod 10 - i + 10) mod 10
  /\ LatencyStats.slot (bucketIndex now) i = (unixSecond now - i) mod 10.
Proof.
  intros H Hi. pose proof (bucketIndex_range now) as Hr. revert H Hr.
  unfold LatencyStats.slot, bucketIndex, unixSecond, bucketsCount.
  pose proof (Z.quot_rem' now 10) as Hq.
  set (r := Z.rem now 10) in *. set (q := Z.quot now 10) in *.
  intros H Hr. rewrite Z.rem_mod_nonneg by lia.
  rewrite Hq. clearbody r q. clear Hq. split.
  - replace (10 * q + r) with (r + q * 10) by lia.
    rewrite Z.mod_add by lia.
    replace (r mod 10 - i + 10) with (r mod 10 + (10 - i)) by lia.
    rewrite Zplus_mod_idemp_l. f_equal. lia.
  - replace (10 * q + r - i) with (r + 10 - i + (q - 1) * 10) by lia.
    now rewrite Z.mod_add by lia.
Qed.

(** C2, as the code has it.  Whenever the truncated remainder of the Unix
    second by 10 is above -7, so for every time at or after the epoch,
    [getLatestStats] returns exactly five entries, entry [i] being the load of
    [buckets[(idx - i + 10) mod 10]] with [idx] the second modulo 10: entry 0 is
    the bucket of the second of [now], then one second older each.  For the
    remainders -7, -8 and -9 the fifth read is out of range. *)
Theorem getLatestStats_five_entries (s : latencyStats) (now : Z) :
  wf s ->
  (-7 < bucketIndex now ->
   exists st,
     LatencyStats.getLatestStats s now = Some st /\
     length st = 5%nat /\
     forall i, 0 <= i < 5 ->
       let idx := unixSecond now mod 10 in
       (idx - i + 10) mod 10 = LatencyStats.slot (bucketIndex now) i /\
       (idx - i + 10) mod 10 = (unixSecond now - i) mod 10 /\
       exists b,
         index (buckets s) ((idx - i + 10) mod 10) = Some b /\
         nth_error st (Z.to_nat i) = Some (Bucket.load b)) /\
  (0 <= unixSecond now ->
   -7 < bucketIndex now /\ bucketIndex now = unixSecond now mod 10) /\
  (bucketIndex now <= -7 -> LatencyStats.getLatestStats s now = None).
Proof.
  intros Hwf. split; [| split].
  - intros H.
    destruct (getLatestStats_reads s now Hwf H)
      as (c0 & c1 & c2 & c3 & c4 & H0 & H1 & H2 & H3 & H4 & Hget).
    eexists. split; [exact Hget |]. split; [reflexivity |].
    intros i Hi idx.
    destruct (slot_math_mod now i H Hi) as [E1 E2]. fold idx in E1.
    split; [now rewrite E1 |]. split; [now rewrite <- E2, E1 |].
    rewrite <- E1.
    assert (C : i = 0 \/ i = 1 \/ i = 2 \/ i = 3 \/ i = 4) by lia.
    destruct C as [-> | [-> | [-> | [-> | ->]]]]; eauto.
  - intros H. destruct (bucketIndex_nonneg now H) as [E H0].
    split; [lia | exact E].
  - apply getLatestStats_panics, Hwf.
Qed.

Lemma getLatestStats_five_entries_witness :
  exists st,
    LatencyStats.getLatestStats newLatencyStats 1700000003 = Some st /\
    length st = 5%nat /\
    forall i, 0 <= i < 5 ->
      let idx := unixSecond 1700000003 mod 10 in
      (idx - i + 10) mod 10 = LatencyStats.slot (bucketIndex 1700000003) i /\
      (idx - i + 10) mod 10 = (unixSecond 1700000003 - i) mod 10 /\
      exists b,
        index (buckets newLatencyStats) ((idx - i + 10) mod 10) = Some b /\
        nth_error st (Z.to_nat i) = Some (Bucket.load b).
Proof.
  apply (getLatestStats_five_entries newLatencyStats 1700000003).
  - reflexivity.
  - vm_compute. reflexivity.
Defined.

(** The second -7 (seven seconds before the epoch): the fifth read is
    [buckets[-1]]. *)
Lemma getLatestStats_before_epoch_panics :
  LatencyStats.getLatestStats newLatencyStats (-7) = None.
Proof. reflexivity. Qed.

(** C9, as the code has it.  [observe] panics exactly when the truncated
    remainder of the Unix second by 10 is negative, that is for the seconds
    before the epoch that are not multiples of 10; [getLatestStats] panics
    exactly when that remainder is -7, -8 or -9; at or after the epoch neither
    does. *)
Theorem index_panics_before_epoch (s : latencyStats) (now v : Z) :
  wf s ->
  (LatencyStats.observe s now v = None <-> bucketIndex now < 0) /\
  (bucketIndex now < 0 <-> unixSecond now < 0 /\ unixSecond now mod 10 <> 0) /\
  (LatencyStats.getLatestStats s now = None <-> bucketIndex now <= -7) /\
  (0 <= unixSecond now ->
   (exists s', LatencyStats.observe s now v = Some s') /\
   (exists st, LatencyStats.getLatestStats s now = Some st)).
Proof.
  intros Hwf.
  assert (Hobs : LatencyStats.observe s now v = None <-> bucketIndex now < 0).
  { split.
    - intros H. destruct (Z_lt_ge_dec (bucketIndex now) 0) as [L | G]; [exact L |].
      pose proof (bucketIndex_range now) as Hr.
      destruct (index_in_range s (bucketIndex now) Hwf ltac:(lia)) as [b Hb].
      rewrite (ring_observe_Some s now v b Hb) in H. discriminate.
    - intros H. unfold LatencyStats.observe. fold (bucketIndex now).
      now rewrite index_negative. }
  assert (Hget : LatencyStats.getLatestStats s now = None
                 <-> bucketIndex now <= -7).
  { split.
    - intros H. destruct (Z_le_gt_dec (bucketIndex now) (-7)) as [L | G];
        [exact L |].
      destruct (getLatestStats_reads s now Hwf ltac:(lia))
        as (c0 & c1 & c2 & c3 & c4 & _ & _ & _ & _ & _ & E).
      rewrite E in H. discriminate.
    - apply getLatestStats_panics, Hwf. }
  split; [exact Hobs |]. split; [| split; [exact Hget |]].
  - unfold bucketIndex, unixSecond, bucketsCount.
    Z.to_euclidean_division_equations. lia.
  - intros H0. pose proof (bucketIndex_nonneg now H0) as [_ Hi]. split.
    + pose proof (bucketIndex_range now) as Hr.
      destruct (index_in_range s (bucketIndex now) Hwf ltac:(lia)) as [b Hb].
      rewrite (ring_observe_Some s now v b Hb). eauto.
    + destruct (getLatestStats_reads s now Hwf ltac:(lia))
        as (c0 & c1 & c2 & c3 & c4 & _ & _ & _ & _ & _ & E).
      rewrite E. eauto.
Qed.

Lemma index_panics_before_epoch_witness :
  (LatencyStats.observe newLatencyStats (-3) 5 = None <-> bucketIndex (-3) < 0) /\
  (bucketIndex (-3) < 0 <-> unixSecond (-3) < 0 /\ unixSecond (-3) mod 10 <> 0) /\
  (LatencyStats.getLatestStats newLatencyStats (-3) = None
   <-> bucketIndex (-3) <= -7) /\
  (0 <= unixSecond (-3) ->
   (exists s', LatencyStats.observe newLatencyStats (-3) 5 = Some s') /\
   (exists st, LatencyStats.getLatestStats newLatencyStats (-3) = Some st)).
Proof.
  apply (index_panics_before_epoch newLatencyStats (-3) 5). reflexivity.
Defined.

(** Two times before the epoch at which nothing panics: the second -10 has
    index 0, and at the second -1 the five reads are the slots 9 down to 5. *)
Lemma before_epoch_without_panic :
  unixSecond (-10) < 0 /\
  bucketIndex (-10) = 0 /\
  LatencyStats.observe newLatencyStats (-10) 5 =
  Some (mkLatencyStats (mkBucket 41 (-10) :: repeat zeroBucket 9)) /\
  unixSecond (-1) < 0 /\
  LatencyStats.getLatestStats newLatencyStats (-1) =
  Some (repeat (mkStat 0 0) 5).
Proof. repeat split. Qed.

(** C4. With Count > 0, [Avg] is the truncating quotient Sum / Count; with
    Count = 0 the division panics, and in no other case. *)
Theorem Avg_truncating_division (s : SingleStat) :
  is_uint64 (Count s) -> is_uint64 (Sum s) ->
  (0 < Count s ->
   exists q,
     Avg s = Some q /\
     q = Z.quot (Sum s) (Count s) /\
     Count s * q <= Sum s < Count s * (q + 1) /\
     is_uint64 q) /\
  (Avg s = None <-> Count s = 0).
Proof.
  unfold is_uint64, Avg. intros Hc Hs. split.
  - intros Hpos. exists (Sum s / Count s).
    destruct (Count s =? 0) eqn:E; [apply Z.eqb_eq in E; lia |].
    split; [reflexivity |].
    split; [rewrite Z.quot_div_nonneg by lia; reflexivity |].
    pose proof (Z.div_mod (Sum s) (Count s) ltac:(lia)) as Hdm.
    pose proof (Z.mod_pos_bound (Sum s) (Count s) Hpos) as Hm.
    assert (Hq : 0 <= Sum s / Count s) by (apply Z.div_pos; lia).
    assert (Hle : Sum s / Count s <= Sum s) by (apply Z.div_le_upper_bound; nia).
    repeat split; nia.
  - destruct (Count s =? 0) eqn:E.
    + apply Z.eqb_eq in E. tauto.
    + apply Z.eqb_neq in E. split; [discriminate | contradiction].
Qed.

Lemma Avg_truncating_division_witness :
  exists q,
    Avg (mkStat 3 61) = Some q /\
    q = Z.quot 61 3 /\
    3 * q <= 61 < 3 * (q + 1) /\
    is_uint64 q.
Proof.
  apply (Avg_truncating_division (mkStat 3 61)).
  - unfold is_uint64, uint64_mod. cbn. lia.
  - unfold is_uint64, uint64_mod. cbn. lia.
  - cbn. lia.
Defined.

Lemma TotalCount_fold (s : Stats) : forall acc,
  fold_left (fun count st => wrap64 (count + Count st)) s (wrap64 acc) =
  wrap64 (acc + sumZ (map Count s)).
Proof.
  induction s as [| st s IH]; intros acc; cbn [fold_left map sumZ fold_right].
  - now rewrite Z.add_0_r.
  - rewrite wrap64_idemp_add_l, IH. f_equal. fold (sumZ (map Count s)). lia.
Qed.

(** C8. [TotalCount] is the sum of the Count fields, reduced modulo 2^64 as
    the uint64 accumulator wraps, and nothing else is done about overflow. *)
Theorem TotalCount_wrapping_sum (s : Stats) :
  TotalCount s = sumZ (map Count s) mod 2 ^ 64.
Proof.
  unfold TotalCount. change 0 with (wrap64 0) at 1.
  rewrite TotalCount_fold. reflexivity.
Qed.

(** ** Interleaved calls *)

Lemma set_goroutine_length (l : list goroutine) : forall n g,
  length (set_goroutine l n g) = length l.
Proof.
  induction l as [| x l IH]; intros [| n] g; cbn; try reflexivity.
  now rewrite IH.
Qed.

Lemma set_goroutine_Forall (P : goroutine -> Prop) (l : list goroutine) :
  forall n g, Forall P l -> P g -> Forall P (set_goroutine l n g).
Proof.
  induction l as [| x l IH]; intros [| n] g Hl Hg; cbn; try exact Hl.
  - inversion Hl; subst. now constructor.
  - inversion Hl; subst. constructor; [assumption | now apply IH].
Qed.

Lemma count_cons (f : goroutine -> bool) (x : goroutine) (l : list goroutine) :
  count f (x :: l) = ((if f x then 1 else 0) + count f l)%nat.
Proof. unfold count. cbn. destruct (f x); reflexivity. Qed.

Lemma count_set (f : goroutine -> bool) (l : list goroutine) :
  forall n g g',
  nth_error l n = Some g ->
  (count f (set_goroutine l n g') + (if f g then 1 else 0) =
   count f l + (if f g' then 1 else 0))%nat.
Proof.
  induction l as [| x l IH]; intros [| n] g g' H; cbn in H; try discriminate.
  - injection H as ->. cbn [set_goroutine]. rewrite !count_cons. lia.
  - cbn [set_goroutine]. rewrite !count_cons.
    specialize (IH n g g' H). lia.
Qed.

Lemma count_le_length (f : goroutine -> bool) (l : list goroutine) :
  (count f l <= length l)%nat.
Proof. unfold count. apply filter_length_le. Qed.

Lemma count_lt_length (f : goroutine -> bool) (l : list goroutine) :
  forall n g,
  nth_error l n = Some g -> f g = false -> (count f l < length l)%nat.
Proof.
  induction l as [| x l IH]; intros [| n] g H Hf; cbn in H; try discriminate.
  - injection H as ->. rewrite count_cons, Hf. cbn [length].
    pose proof (count_le_length f l). lia.
  - rewrite count_cons. cbn [length]. specialize (IH n g H Hf).
    destruct (f x); lia.
Qed.

Lemma count_pos (f : goroutine -> bool) (l : list goroutine) :
  forall n g,
  nth_error l n = Some g -> f g = true -> (1 <= count f l)%nat.
Proof.
  induction l as [| x l IH]; intros [| n] g H Hf; cbn in H; try discriminate.
  - injection H as ->. rewrite count_cons, Hf. lia.
  - rewrite count_cons. specialize (IH n g H Hf). lia.
Qed.

Lemma count_Forall_false (f : goroutine -> bool) (l : list goroutine) :
  Forall (fun g => f g = false) l -> count f l = 0%nat.
Proof.
  induction 1 as [| x l Hx _ IH]; [reflexivity |].
  rewrite count_cons, Hx, IH. reflexivity.
Qed.

Lemma count_Forall_true (f : goroutine -> bool) (l : list goroutine) :
  Forall (fun g => f g = true) l -> count f l = length l.
Proof.
  induction 1 as [| x l Hx _ IH]; [reflexivity |].
  rewrite count_cons, Hx, IH. reflexivity.
Qed.

Lemma nth_error_set_goroutine (l : list goroutine) : forall n g g',
  nth_error l n = Some g -> nth_error (set_goroutine l n g') n = Some g'.
Proof.
  induction l as [| x l IH]; intros [| n] g g' H; cbn in *; try discriminate.
  - reflexivity.
  - now apply IH with (g := g).
Qed.

Lemma nth_error_Forall (P : goroutine -> Prop) (l : list goroutine) n g :
  Forall P l -> nth_error l n = Some g -> P g.
Proof.
  intros HF H. apply nth_error_In in H.
  rewrite Forall_forall in HF. now apply HF.
Qed.

Lemma step_inv (t : Z) (i : nat) (c c' : config) :
  step t i c = Some c' ->
  exists g b' g',
    nth_error (c_goroutines c) i = Some g /\
    step_goroutine t (c_bucket c) g = Some (b', g') /\
    c' = mkConfig b' (set_goroutine (c_goroutines c) i g').
Proof.
  unfold step. destruct (nth_error _ i) as [g |] eqn:Hg; [| discriminate].
  destruct (step_goroutine _ _ g) as [[b' g'] |] eqn:Hs; [| discriminate].
  intros [= <-]. now exists g, b', g'.
Qed.

Lemma step_length (t : Z) (i : nat) (c c' : config) :
  step t i c = Some c' ->
  length (c_goroutines c') = length (c_goroutines c).
Proof.
  intros H. destruct (step_inv t i c c' H) as (g & b' & g' & _ & _ & ->).
  apply set_goroutine_length.
Qed.

Lemma run_length (t : Z) (sched : list nat) : forall c c',
  run t sched c = Some c' ->
  length (c_goroutines c') = length (c_goroutines c).
Proof.
  induction sched as [| i sched IH]; intros c c' H; cbn in H.
  - now injection H as <-.
  - destruct (step t i c) as [c1 |] eqn:E; [| discriminate].
    rewrite (IH c1 c' H). now apply step_length with (t := t) (i := i).
Qed.

Lemma before_cas_not_store (b : bucket) (gs : list goroutine) :
  Forall (before_cas b) gs -> count is_store gs = 0%nat.
Proof.
  intros H. apply count_Forall_false.
  eapply Forall_impl; [| exact H].
  intros g [E | E]; unfold is_store; now rewrite E.
Qed.

(** Every atomic operation of every goroutine keeps the invariant. *)
Lemma step_preserves_Inv (t : Z) (i : nat) (c c' : config) :
  Inv t c -> step t i c = Some c' -> Inv t c'.
Proof.
  intros [Hsane Hph] Hstep.
  destruct (step_inv t i c c' Hstep) as (g & b' & g' & Hg & Hs & ->).
  destruct c as [b gs]. cbn [c_bucket c_goroutines] in *.
  pose proof (nth_error_Forall _ _ _ _ Hsane Hg) as Hgs.
  destruct g as [p ms]. unfold step_goroutine in Hs. cbn [g_pc g_ms] in Hs.
  destruct p as [| o | | |].
  - (* Load *)
    destruct (ts b =? t) eqn:E; cbn [negb] in Hs; injection Hs as <- <-.
    + apply Z.eqb_eq in E. split.
      * apply set_goroutine_Forall; [exact Hsane |]. intros o Ho. discriminate.
      * pose proof (count_set is_store gs i _ (mkGoroutine AtAdd ms) Hg) as Cs.
        pose proof (count_set returned gs i _ (mkGoroutine AtAdd ms) Hg) as Cr.
        cbn [is_store returned g_pc] in Cs, Cr.
        destruct Hph as [Hne _ | _ Hc | k tot _ Hc Hw Hk Hl]; cbn [c_bucket c_goroutines] in *.
        -- contradiction.
        -- apply Resetting; cbn [c_bucket c_goroutines countAndTotal ts countAndTotal_Store countAndTotal_Add]; [exact E | lia].
        -- apply (Counting _ _ k tot); cbn [c_bucket c_goroutines countAndTotal ts countAndTotal_Store countAndTotal_Add]; try assumption; try lia.
           right.
           apply (count_lt_length returned _ i (mkGoroutine AtAdd ms));
             [now apply nth_error_set_goroutine with (g := mkGoroutine AtLoad ms)
             | reflexivity].
    + apply Z.eqb_neq in E. split.
      * apply set_goroutine_Forall; [exact Hsane |].
        intros o Ho. cbn in Ho. injection Ho as <-. exact E.
      * destruct Hph as [_ Hb | Ht _ | k tot Ht _ _ _ _]; cbn [c_bucket c_goroutines] in *;
          try contradiction.
        apply Stale; cbn [c_bucket c_goroutines countAndTotal ts countAndTotal_Store countAndTotal_Add]; [exact E |].
        apply set_goroutine_Forall; [exact Hb |]. right. reflexivity.
  - (* CAS *)
    unfold ts_CAS in Hs.
    assert (Hot : o <> t) by (apply Hgs; reflexivity).
    destruct (ts b =? o) eqn:E; injection Hs as <- <-.
    + apply Z.eqb_eq in E. split.
      * apply set_goroutine_Forall; [exact Hsane |]. intros o' Ho. discriminate.
      * pose proof (count_set is_store gs i _ (mkGoroutine AtStore ms) Hg) as Cs.
        cbn [is_store returned g_pc] in Cs.
        destruct Hph as [_ Hb | Ht _ | k tot Ht _ _ _ _]; cbn [c_bucket c_goroutines] in *;
          try congruence.
        apply Resetting; cbn [c_bucket c_goroutines countAndTotal ts countAndTotal_Store countAndTotal_Add]; [reflexivity |].
        rewrite (before_cas_not_store b gs Hb) in Cs. lia.
    + apply Z.eqb_neq in E. split.
      * apply set_goroutine_Forall; [exact Hsane |]. intros o' Ho. discriminate.
      * pose proof (count_set is_store gs i _ (mkGoroutine AtAdd ms) Hg) as Cs.
        pose proof (count_set returned gs i _ (mkGoroutine AtAdd ms) Hg) as Cr.
        cbn [is_store returned g_pc] in Cs, Cr.
        destruct Hph as [_ Hb | Ht Hc | k tot Ht Hc Hw Hk Hl]; cbn [c_bucket c_goroutines] in *.
        -- pose proof (nth_error_Forall _ _ _ _ Hb Hg) as [Hx | Hx];
             cbn in Hx; congruence.
        -- apply Resetting; cbn [c_bucket c_goroutines countAndTotal ts countAndTotal_Store countAndTotal_Add]; [exact Ht | lia].
        -- apply (Counting _ _ k tot); cbn [c_bucket c_goroutines countAndTotal ts countAndTotal_Store countAndTotal_Add]; try assumption; try lia.
           right.
           apply (count_lt_length returned _ i (mkGoroutine AtAdd ms));
             [now apply nth_error_set_goroutine with (g := mkGoroutine (AtCAS o) ms)
             | reflexivity].
  - (* Store *)
    injection Hs as <- <-. split.
    + apply set_goroutine_Forall; [exact Hsane |]. intros o' Ho. discriminate.
    + pose proof (count_set is_store gs i _ (mkGoroutine AtAdd ms) Hg) as Cs.
      cbn [is_store returned g_pc] in Cs.
      destruct Hph as [_ Hb | Ht Hc | k tot Ht Hc Hw Hk Hl]; cbn [c_bucket c_goroutines] in *.
      * pose proof (nth_error_Forall _ _ _ _ Hb Hg) as [Hx | Hx];
          cbn in Hx; discriminate.
      * apply (Counting _ _ 0%nat 0); cbn [c_bucket c_goroutines countAndTotal ts countAndTotal_Store countAndTotal_Add]; try assumption; try lia.
        -- reflexivity.
        -- right.
           apply (count_lt_length returned _ i (mkGoroutine AtAdd ms));
             [now apply nth_error_set_goroutine with (g := mkGoroutine AtStore ms)
             | reflexivity].
      * pose proof (count_pos is_store gs i _ Hg eq_refl). lia.
  - (* Add *)
    injection Hs as <- <-. split.
    + apply set_goroutine_Forall; [exact Hsane |]. intros o' Ho. discriminate.
    + pose proof (count_set is_store gs i _ (mkGoroutine Returned ms) Hg) as Cs.
      pose proof (count_set returned gs i _ (mkGoroutine Returned ms) Hg) as Cr.
      cbn [is_store returned g_pc] in Cs, Cr.
      destruct Hph as [_ Hb | Ht Hc | k tot Ht Hc Hw Hk Hl]; cbn [c_bucket c_goroutines] in *.
      * pose proof (nth_error_Forall _ _ _ _ Hb Hg) as [Hx | Hx];
          cbn in Hx; discriminate.
      * apply Resetting; cbn [c_bucket c_goroutines countAndTotal ts countAndTotal_Store countAndTotal_Add]; [exact Ht | lia].
      * apply (Counting _ _ (S k) (tot + ms)); cbn [c_bucket c_goroutines countAndTotal ts countAndTotal_Store countAndTotal_Add]; try assumption; try lia.
        rewrite Hw, composedValue_eq, Nat2Z.inj_succ.
        generalize (Z.of_nat k). intros z. wrap64_lia.
  - discriminate.
Qed.

Lemma run_preserves_Inv (t : Z) (sched : list nat) : forall c c',
  Inv t c -> run t sched c = Some c' -> Inv t c'.
Proof.
  induction sched as [| i sched IH]; intros c c' HI H; cbn in H.
  - now injection H as <-.
  - destruct (step t i c) as [c1 |] eqn:E; [| discriminate].
    apply (IH c1 c'); [| exact H].
    now apply step_preserves_Inv with (i := i) (c := c).
Qed.

Lemma spawn_goroutines_AtLoad (b : bucket) (vs : list Z) :
  Forall (fun g => g_pc g = AtLoad) (c_goroutines (spawn b vs)).
Proof. unfold spawn. cbn. induction vs; cbn; constructor; auto. Qed.

Lemma spawn_Inv (b : bucket) (t : Z) (vs : list Z) :
  clean_for b t -> vs <> [] -> Inv t (spawn b vs).
Proof.
  intros Hclean Hne.
  pose proof (spawn_goroutines_AtLoad b vs) as Hl. split.
  - eapply Forall_impl; [| exact Hl]. intros g E o Ho. congruence.
  - destruct (Z.eq_dec (ts b) t) as [E | E].
    + destruct Hclean as [Hc | Hc]; [contradiction |].
      apply (Counting _ _ 0%nat 0).
      * exact E.
      * apply count_Forall_false. eapply Forall_impl; [| exact Hl].
        intros g Hg. unfold is_store. now rewrite Hg.
      * unfold spawn. cbn [c_bucket]. rewrite Hc. reflexivity.
      * lia.
      * right. assert (Hr : count returned (c_goroutines (spawn b vs)) = 0%nat).
        { apply count_Forall_false. eapply Forall_impl; [| exact Hl].
          intros g Hg. unfold returned. now rewrite Hg. }
        rewrite Hr. unfold spawn. cbn. rewrite length_map.
        destruct vs; [congruence | cbn; lia].
    + apply Stale; [exact E |].
      eapply Forall_impl; [| exact Hl]. intros g Hg. now left.
Qed.

Lemma all_returned_Forall (c : config) :
  all_returned c = true ->
  Forall (fun g => returned g = true) (c_goroutines c).
Proof.
  unfold all_returned. intros H. rewrite forallb_forall in H.
  now apply Forall_forall.
Qed.

(** Once every goroutine has returned, the word counts [k] calls, with
    [1 <= k <= M], and [load] shows [k] modulo 8. *)
Lemma Inv_final (t : Z) (c : config) :
  Inv t c -> all_returned c = true -> c_goroutines c <> [] ->
  exists k : nat,
    (1 <= k <= length (c_goroutines c))%nat /\
    Count (Bucket.load (c_bucket c)) = Z.of_nat k mod 8.
Proof.
  intros [_ Hph] Hall Hne.
  pose proof (all_returned_Forall c Hall) as Hr.
  pose proof (count_Forall_true returned _ Hr) as Hcr.
  assert (Hns : count is_store (c_goroutines c) = 0%nat).
  { apply count_Forall_false. eapply Forall_impl; [| exact Hr].
    intros [p ms]. unfold returned, is_store. cbn. destruct p; congruence. }
  destruct Hph as [_ Hb | _ Hc | k tot _ _ Hw Hk Hl].
  - destruct (c_goroutines c) as [| g gs]; [congruence |].
    inversion Hb as [| ? ? Hg _]; subst. inversion Hr as [| ? ? Hg' _]; subst.
    destruct g as [p ms]. unfold returned in Hg'. cbn in Hg'.
    destruct Hg as [E | E]; cbn in E; subst p; discriminate.
  - lia.
  - exists k. split; [lia |].
    unfold Bucket.load. cbn [Count]. rewrite Hw. apply packed_count.
Qed.

(** *** Progress: a schedule that lets every goroutine return exists, and no
    execution is longer than four operations per goroutine. *)

Lemma step_goroutine_remaining (t : Z) (b b' : bucket) (g g' : goroutine) :
  step_goroutine t b g = Some (b', g') -> (remaining g' < remaining g)%nat.
Proof.
  destruct g as [p ms]. unfold step_goroutine. cbn [g_pc g_ms].
  destruct p as [| o | | |].
  - destruct (negb _); intros [= <- <-]; cbn; lia.
  - destruct (ts_CAS b o t) as [[] b1]; intros [= <- <-]; cbn; lia.
  - intros [= <- <-]. cbn. lia.
  - intros [= <- <-]. cbn. lia.
  - discriminate.
Qed.

Lemma remaining_set (l : list goroutine) : forall n g g',
  nth_error l n = Some g ->
  (fold_right (fun g n => remaining g + n) 0 (set_goroutine l n g') + remaining g =
   fold_right (fun g n => remaining g + n) 0 l + remaining g')%nat.
Proof.
  induction l as [| x l IH]; intros [| n] g g' H; cbn in H; try discriminate.
  - injection H as ->. cbn. lia.
  - cbn. specialize (IH n g g' H). lia.
Qed.

Lemma step_remaining (t : Z) (i : nat) (c c' : config) :
  step t i c = Some c' -> (remaining_all c' < remaining_all c)%nat.
Proof.
  intros H. destruct (step_inv t i c c' H) as (g & b' & g' & Hg & Hs & ->).
  unfold remaining_all. cbn [c_goroutines].
  pose proof (remaining_set _ i g g' Hg).
  pose proof (step_goroutine_remaining t _ _ _ _ Hs). lia.
Qed.

Lemma run_bounded (t : Z) (sched : list nat) : forall c c',
  run t sched c = Some c' ->
  (length sched + remaining_all c' <= remaining_all c)%nat.
Proof.
  induction sched as [| i sched IH]; intros c c' H; cbn in H.
  - injection H as <-. cbn. lia.
  - destruct (step t i c) as [c1 |] eqn:E; [| discriminate].
    specialize (IH c1 c' H). pose proof (step_remaining t i c c1 E).
    cbn [length]. lia.
Qed.

Lemma not_returned_steps (t : Z) (b : bucket) (g : goroutine) :
  returned g = false -> exists b' g', step_goroutine t b g = Some (b', g').
Proof.
  destruct g as [p ms]. unfold returned, step_goroutine. cbn [g_pc g_ms].
  destruct p as [| o | | |]; intros H; try discriminate.
  - destruct (negb _); eauto.
  - destruct (ts_CAS b o t) as [[] b1]; eauto.
  - eauto.
  - eauto.
Qed.

Lemma find_not_returned (gs : list goroutine) :
  forallb returned gs = false ->
  exists i g, nth_error gs i = Some g /\ returned g = false.
Proof.
  induction gs as [| x gs IH]; cbn; [discriminate |].
  destruct (returned x) eqn:E; cbn.
  - intros H. destruct (IH H) as (i & g & Hi & Hg). now exists (S i), g.
  - intros _. now exists 0%nat, x.
Qed.

Lemma progress (t : Z) (c : config) :
  all_returned c = false -> exists i c', step t i c = Some c'.
Proof.
  intros H. destruct (find_not_returned _ H) as (i & g & Hi & Hg).
  destruct (not_returned_steps t (c_bucket c) g Hg) as (b' & g' & Hs).
  exists i. unfold step. rewrite Hi, Hs. eauto.
Qed.

Lemma complete_schedule_exists (t : Z) (n : nat) : forall c,
  (remaining_all c <= n)%nat ->
  exists sched c', run t sched c = Some c' /\ all_returned c' = true.
Proof.
  induction n as [| n IH]; intros c Hn.
  - destruct (all_returned c) eqn:E.
    + exists [], c. now split.
    + destruct (progress t c E) as (i & c1 & Hs).
      pose proof (step_remaining t i c c1 Hs). lia.
  - destruct (all_returned c) eqn:E.
    + exists [], c. now split.
    + destruct (progress t c E) as (i & c1 & Hs).
      pose proof (step_remaining t i c c1 Hs) as Hlt.
      destruct (IH c1 ltac:(lia)) as (sched & c' & Hrun & Hall).
      exists (i :: sched), c'. cbn. rewrite Hs. now split.
Qed.

(** The sequential [bucket.observe] is the run of a single goroutine. *)
Lemma observe_is_a_run (b : bucket) (t ms : Z) :
  exists sched,
    run t sched (spawn b [ms]) =
    Some (mkConfig (Bucket.observe b t ms) [mkGoroutine Returned ms]).
Proof.
  destruct (Z.eq_dec (ts b) t) as [E | E].
  - exists [0; 0]%nat. unfold spawn, run, step, step_goroutine. cbn.
    rewrite (proj2 (Z.eqb_eq _ _) E). cbn.
    unfold Bucket.observe. rewrite (proj2 (Z.eqb_eq _ _) E). reflexivity.
  - exists [0; 0; 0; 0]%nat. unfold spawn, run, step, step_goroutine. cbn.
    rewrite (proj2 (Z.eqb_neq _ _) E). cbn.
    unfold ts_CAS. rewrite Z.eqb_refl. cbn.
    unfold Bucket.observe, ts_CAS.
    rewrite (proj2 (Z.eqb_neq _ _) E), Z.eqb_refl. reflexivity.
Qed.

(** A lost update: the goroutine 1 adds between the CAS and the store of the
    goroutine 0, and its sample is wiped. *)
Example lost_update :
  exists c,
    run 1700000000 [0; 0; 1; 1; 0; 0]%nat (spawn zeroBucket [5; 6]) = Some c /\
    all_returned c = true /\
    Bucket.load (c_bucket c) = mkStat 1 5.
Proof.
  match goal with
  | |- exists c, ?r = Some c /\ _ =>
      let v := eval vm_compute in r in
      match v with Some ?c0 => exists c0 end
  end.
  repeat split; vm_compute; reflexivity.
Qed.

Lemma spawn_remaining (b : bucket) (vs : list Z) :
  remaining_all (spawn b vs) = (4 * length vs)%nat.
Proof.
  unfold remaining_all, spawn. cbn [c_goroutines].
  induction vs as [| v vs IH]; [reflexivity |].
  cbn [map fold_right length]. rewrite IH. cbn [remaining g_pc]. lia.
Qed.

(** C10, as the code has it.  M >= 1 goroutines each call observe once at
    the second [t] on a bucket that holds no sample of [t].  Some schedule lets
    them all return, no schedule is longer than 4 M operations, and whenever
    all have returned the word counts [k] calls with [1 <= k <= M]: the loaded
    Count is [k mod 8], so it never exceeds M, and it is at least 1 when
    M <= 7. *)
Theorem concurrent_count_bounds (b : bucket) (t : Z) (vs : list Z) :
  clean_for b t -> vs <> [] ->
  (exists sched c,
      run t sched (spawn b vs) = Some c /\ all_returned c = true) /\
  (forall sched c,
      run t sched (spawn b vs) = Some c ->
      (length sched <= 4 * length vs)%nat /\
      (all_returned c = true ->
       exists k : nat,
         (1 <= k <= length vs)%nat /\
         Count (Bucket.load (c_bucket c)) = Z.of_nat k mod 8 /\
         0 <= Count (Bucket.load (c_bucket c)) <= Z.of_nat (length vs) /\
         ((length vs <= 7)%nat -> 1 <= Count (Bucket.load (c_bucket c))))).
Proof.
  intros Hclean Hne. split.
  - apply (complete_schedule_exists t (remaining_all (spawn b vs))). lia.
  - intros sched c Hrun. split.
    + pose proof (run_bounded t sched _ _ Hrun) as Hb.
      rewrite spawn_remaining in Hb. lia.
    + intros Hall.
      pose proof (run_preserves_Inv t sched _ _ (spawn_Inv b t vs Hclean Hne) Hrun)
        as HI.
      pose proof (run_length t sched _ _ Hrun) as Hlen.
      assert (Hm : length (c_goroutines (spawn b vs)) = length vs)
        by (unfold spawn; cbn; apply length_map).
      destruct (Inv_final t c HI Hall) as (k & Hk & Hc).
      { intros E. rewrite E, Hm in Hlen. destruct vs; [congruence | discriminate]. }
      rewrite Hlen, Hm in Hk.
      exists k. split; [exact Hk |]. split; [exact Hc |].
      rewrite Hc.
      pose proof (Z.mod_pos_bound (Z.of_nat k) 8 ltac:(lia)) as Hmod.
      pose proof (Z.mod_le (Z.of_nat k) 8 ltac:(lia) ltac:(lia)) as Hle.
      split; [lia |].
      intros H7. rewrite Z.mod_small by lia. lia.
Qed.

Lemma concurrent_count_bounds_witness :
  (exists sched c,
      run 1700000000 sched (spawn zeroBucket [5; 6; 7]) = Some c /\
      all_returned c = true) /\
  (forall sched c,
      run 1700000000 sched (spawn zeroBucket [5; 6; 7]) = Some c ->
      (length sched <= 4 * length [5; 6; 7])%nat /\
      (all_returned c = true ->
       exists k : nat,
         (1 <= k <= length [5; 6; 7])%nat /\
         Count (Bucket.load (c_bucket c)) = Z.of_nat k mod 8 /\
         0 <= Count (Bucket.load (c_bucket c)) <= Z.of_nat (length [5; 6; 7]) /\
         ((length [5; 6; 7] <= 7)%nat ->
          1 <= Count (Bucket.load (c_bucket c))))).
Proof.
  apply (concurrent_count_bounds zeroBucket 1700000000 [5; 6; 7]).
  - left. cbn. lia.
  - discriminate.
Defined.

(** Eight goroutines, no update lost: the count field wraps to 0. *)
Lemma eight_goroutines_count_zero :
  exists c,
    run 1700000000 [0; 0; 0; 0; 1; 1; 2; 2; 3; 3; 4; 4; 5; 5; 6; 6; 7; 7]%nat
        (spawn zeroBucket [5; 5; 5; 5; 5; 5; 5; 5]) = Some c /\
    all_returned c = true /\
    Count (Bucket.load (c_bucket c)) = 0.
Proof.
  match goal with
  | |- exists c, ?r = Some c /\ _ =>
      let v := eval vm_compute in r in
      match v with Some ?c0 => exists c0 end
  end.
  repeat split; vm_compute; reflexivity.
Qed.

(** ** The weighted average *)

(** The loop, started at entry [k] with the partial sums [asum] and [acnt]. *)
Lemma WeightedAvg_loop (s : Stats) : forall (k : nat) (asum acnt : float),
  fold_left wacc_step s (mkWacc asum acnt (weight k)) =
  mkWacc (weightedFrom Sum k asum s) (weightedFrom Count k acnt s)
         (weight (k + length s)).
Proof.
  induction s as [| st s IH]; intros k asum acnt.
  - cbn. now rewrite Nat.add_0_r.
  - cbn [fold_left]. unfold wacc_step at 2. cbn [totalSum totalCount factor].
    change (weight k * attenuateFactor)%float with (weight (S k)).
    rewrite IH. cbn [weightedFrom length].
    now rewrite Nat.add_succ_r.
Qed.

Lemma weightedFrom_same_counts (k : nat) : forall (s s' : Stats) (acc : float),
  map Count s' = map Count s ->
  weightedFrom Count k acc s' = weightedFrom Count k acc s.
Proof.
  revert k. intros k s. revert k.
  induction s as [| st s IH]; intros k s' acc H; destruct s' as [| st' s'];
    try discriminate H; [reflexivity |].
  cbn in H. injection H as Hc Hs. cbn [weightedFrom]. rewrite Hc.
  now apply IH.
Qed.

Lemma WeightedAvg_unfold (s : Stats) :
  WeightedAvg s =
  (if (weightedCount s <? 100)%float then Some 0
   else uint64_of_float64 (weightedSum s / weightedCount s)%float).
Proof.
  unfold WeightedAvg. change wacc_init with (mkWacc 0 0 (weight 0)).
  rewrite (WeightedAvg_loop s 0 0%float 0%float). reflexivity.
Qed.

Lemma WeightedAvg_below_threshold (s s' : Stats) :
  map Count s' = map Count s ->
  (weightedCount s <? 100)%float = true ->
  WeightedAvg s' = Some 0.
Proof.
  intros Hc Hlt. rewrite WeightedAvg_unfold. unfold weightedCount in *.
  rewrite (weightedFrom_same_counts 0 s s' 0%float Hc), Hlt. reflexivity.
Qed.



(** Five entries with Count = 50 and Sum = 500: the weighted count is
    204.755 (here in hexadecimal), above the threshold, and the average
    is 10. *)
Example WeightedAvg_fifty :
  weightedCount (repeat (mkStat 50 500) 5) = 0x1.99828f5c28f5cp+7%float /\
  WeightedAvg (repeat (mkStat 50 500) 5) = Some 10.
Proof. split; vm_compute; reflexivity. Qed.

(** The fraction is dropped, not rounded: 299 / 30 = 9.97 gives 9. *)
Example WeightedAvg_truncates :
  WeightedAvg (repeat (mkStat 30 299) 4) = Some 9.
Proof. vm_compute. reflexivity. Qed.

(** Five full buckets, Count = 7 each: the weighted count is 28.6657, below
    the threshold. *)
Example WeightedAvg_full_buckets :
  weightedCount (repeat (mkStat 7 1000) 5) = 0x1.caa6b50b0f27cp+4%float /\
  WeightedAvg (repeat (mkStat 7 1000) 5) = Some 0.
Proof. split; vm_compute; reflexivity. Qed.

(** *** What the ring can report *)

Lemma in_counts8 (c : Z) : 0 <= c <= 7 -> In c counts8.
Proof.
  intros H. unfold counts8.
  assert (C : c = 0 \/ c = 1 \/ c = 2 \/ c = 3 \/ c = 4 \/ c = 5 \/ c = 6 \/
              c = 7) by lia.
  cbn. intuition.
Qed.

Lemma all_below_threshold_true : all_below_threshold = true.
Proof. vm_compute. reflexivity. Qed.

Lemma small_counts_below_threshold (c0 c1 c2 c3 c4 : Z) :
  0 <= c0 <= 7 -> 0 <= c1 <= 7 -> 0 <= c2 <= 7 -> 0 <= c3 <= 7 ->
  0 <= c4 <= 7 ->
  (weightedCount [mkStat c0 0; mkStat c1 0; mkStat c2 0; mkStat c3 0;
                  mkStat c4 0] <? 100)%float = true.
Proof.
  intros H0 H1 H2 H3 H4.
  pose proof all_below_threshold_true as H. unfold all_below_threshold in H.
  rewrite forallb_forall in H. specialize (H c0 (in_counts8 c0 H0)). cbv beta in H.
  rewrite forallb_forall in H. specialize (H c1 (in_counts8 c1 H1)). cbv beta in H.
  rewrite forallb_forall in H. specialize (H c2 (in_counts8 c2 H2)). cbv beta in H.
  rewrite forallb_forall in H. specialize (H c3 (in_counts8 c3 H3)). cbv beta in H.
  rewrite forallb_forall in H. exact (H c4 (in_counts8 c4 H4)).
Qed.

(** X1. With a three-bit count per bucket the weighted count of a snapshot
    is at most 7 * (1 + 0.9 + 0.81 + 0.729 + 0.6561) = 28.67: on every
    snapshot that [getLatestStats] returns, [WeightedAvg] is 0. *)
Lemma WeightedAvg_of_snapshot (s : latencyStats) (now : Z) (st : Stats) :
  wf s ->
  LatencyStats.getLatestStats s now = Some st ->
  length st = numOfLastStats /\
  Forall (fun x => 0 <= Count x <= 7) st /\
  WeightedAvg st = Some 0.
Proof.
  intros Hwf Hget.
  destruct (Z_le_gt_dec (bucketIndex now) (-7)) as [L | G].
  { rewrite (getLatestStats_panics s now Hwf L) in Hget. discriminate. }
  destruct (getLatestStats_reads s now Hwf ltac:(lia))
    as (c0 & c1 & c2 & c3 & c4 & _ & _ & _ & _ & _ & E).
  rewrite E in Hget. injection Hget as <-.
  split; [reflexivity |]. split.
  - repeat constructor; apply Count_range.
  - apply WeightedAvg_below_threshold
      with (s := [mkStat (Count (Bucket.load c0)) 0;
                  mkStat (Count (Bucket.load c1)) 0;
                  mkStat (Count (Bucket.load c2)) 0;
                  mkStat (Count (Bucket.load c3)) 0;
                  mkStat (Count (Bucket.load c4)) 0]).
    + reflexivity.
    + apply small_counts_below_threshold; apply Count_range.
Qed.

(** ** Scenarios *)

Example three_samples :
  Bucket.load (Bucket.observeAll zeroBucket 1700000000 [10; 20; 30]) =
  mkStat 3 60 /\
  Avg (mkStat 3 60) = Some 20.
Proof. split; reflexivity. Qed.

Example Avg_of_empty_bucket : Avg (Bucket.load zeroBucket) = None.
Proof. reflexivity. Qed.

Example TotalCount_wraps :
  TotalCount [mkStat (2 ^ 64 - 1) 0; mkStat 2 0] = 1.
Proof. reflexivity. Qed.

Example sum_field_wraps :
  Bucket.load (Bucket.observe (Bucket.observe zeroBucket 100 1) 101 (2 ^ 61)) =
  mkStat 1 0.
Proof. reflexivity. Qed.

Example uint64_of_float64_truncates :
  uint64_of_float64 0x1.3fae147ae147bp+3%float = Some 9 /\
  uint64_of_float64 0.5%float = Some 0 /\
  uint64_of_float64 (float64_of_uint64 (2 ^ 64 - 1)) = None /\
  uint64_of_float64 (0 / 0)%float = None.
Proof. repeat split; vm_compute; reflexivity. Qed.

(** * Further properties *)

(** ** More about one bucket *)

Lemma land_shiftr_decompose (x : Z) :
  x = 8 * Z.shiftr x counterBytes + Z.land x counterMusk.
Proof.
  unfold counterBytes. change counterMusk with (Z.ones 3).
  rewrite Z.shiftr_div_pow2, Z.land_ones by lia.
  change (2 ^ 3) with 8. apply Z.div_mod. lia.
Qed.

(** X2. The packed word and the pair that [load] returns carry the same
    information: the word is 8 * Sum + Count, with Count at most 7 and Sum
    below 2^61, and packing a count below 8 with a sum below 2^61 and loading
    it gives them back. *)
Theorem load_unpacks_the_word (b : bucket) (c total : Z) :
  is_uint64 (countAndTotal b) -> 0 <= c <= 7 -> 0 <= total < 2 ^ 61 ->
  countAndTotal b = 8 * Sum (Bucket.load b) + Count (Bucket.load b) /\
  0 <= Count (Bucket.load b) <= 7 /\
  0 <= Sum (Bucket.load b) < 2 ^ 61 /\
  is_uint64 (8 * total + c) /\
  Bucket.load (mkBucket (8 * total + c) (ts b)) = mkStat c total.
Proof.
  unfold is_uint64, uint64_mod. intros Hb Hc Htot.
  pose proof (land_shiftr_decompose (countAndTotal b)) as Hd.
  pose proof (Count_range b) as Hr.
  unfold Bucket.load in *. cbn [Count Sum countAndTotal] in *.
  split; [exact Hd |]. split; [exact Hr |]. split; [| split].
  - change (2 ^ 64) with (8 * 2 ^ 61) in Hb. lia.
  - change (2 ^ 64) with (8 * 2 ^ 61). lia.
  - replace (8 * total + c) with (wrap64 (8 * total + c)).
    + rewrite packed_count, packed_sum. f_equal.
      * apply Z.mod_small. lia.
      * rewrite (Z.div_small c 8) by lia. rewrite Z.add_0_r.
        apply Z.mod_small. lia.
    + unfold wrap64, uint64_mod. apply Z.mod_small.
      change (2 ^ 64) with (8 * 2 ^ 61). lia.
Qed.

Lemma load_unpacks_the_word_witness :
  countAndTotal (mkBucket 491 7) =
  8 * Sum (Bucket.load (mkBucket 491 7)) + Count (Bucket.load (mkBucket 491 7)) /\
  0 <= Count (Bucket.load (mkBucket 491 7)) <= 7 /\
  0 <= Sum (Bucket.load (mkBucket 491 7)) < 2 ^ 61 /\
  is_uint64 (8 * 61 + 3) /\
  Bucket.load (mkBucket (8 * 61 + 3) (ts (mkBucket 491 7))) = mkStat 3 61.
Proof.
  apply (load_unpacks_the_word (mkBucket 491 7) 3 61).
  - unfold is_uint64, uint64_mod. cbn. lia.
  - lia.
  - lia.
Defined.

Lemma sumZ_permutation (vs vs' : list Z) :
  Permutation vs vs' -> sumZ vs = sumZ vs'.
Proof.
  induction 1 as [| x l l' _ IH | x y l | l l' l'' _ IH1 _ IH2]; cbn.
  - reflexivity.
  - fold (sumZ l) (sumZ l'). lia.
  - lia.
  - congruence.
Qed.

(** The bucket after a non-empty run, whatever it held before. *)
Lemma observeAll_closed_form (b : bucket) (t v : Z) (vs : list Z) :
  Bucket.observeAll b t (v :: vs) =
  mkBucket
    (wrap64 ((if ts b =? t then countAndTotal b else 0)
             + (8 * sumZ (v :: vs) + Z.of_nat (length (v :: vs))))) t.
Proof.
  destruct (ts b =? t) eqn:E.
  - apply Z.eqb_eq in E. now apply observeAll_same_second.
  - apply Z.eqb_neq in E. rewrite observeAll_reset by (auto; discriminate).
    now rewrite observeAll_same_second.
Qed.

(** X3. The calls of one second commute: a run leaves the same bucket in
    whatever order its samples arrive. *)
Theorem observeAll_order_irrelevant (b : bucket) (t : Z) (vs vs' : list Z) :
  Permutation vs vs' ->
  Bucket.observeAll b t vs = Bucket.observeAll b t vs'.
Proof.
  intros H.
  pose proof (sumZ_permutation vs vs' H) as Hs.
  pose proof (Permutation_length H) as Hl.
  destruct vs as [| v vs]; destruct vs' as [| v' vs']; try discriminate Hl.
  - reflexivity.
  - rewrite !observeAll_closed_form. now rewrite Hs, Hl.
Qed.

Lemma observeAll_order_irrelevant_witness :
  Bucket.observeAll (mkBucket 17 5) 6 [10; 20; 30] =
  Bucket.observeAll (mkBucket 17 5) 6 [20; 10; 30].
Proof.
  apply (observeAll_order_irrelevant (mkBucket 17 5) 6).
  apply perm_swap.
Defined.

(** X4. [Avg] on what [load] reports after a run: it divides by zero exactly
    when the number of calls is a multiple of 8 (no call, or the count field
    wrapped round), and it is the truncated mean of the samples for one to
    seven calls whose sum fits the sum field. *)
Theorem Avg_after_run (b : bucket) (t : Z) (vs : list Z) :
  countAndTotal b = 0 \/ (ts b <> t /\ vs <> []) ->
  (Avg (Bucket.load (Bucket.observeAll b t vs)) = None <->
   Z.of_nat (length vs) mod 8 = 0) /\
  (Forall is_uint64 vs -> (1 <= length vs <= 7)%nat -> sumZ vs < 2 ^ 61 ->
   Avg (Bucket.load (Bucket.observeAll b t vs)) =
   Some (sumZ vs / Z.of_nat (length vs))).
Proof.
  intros Hb. rewrite (load_after_observeAll vs b t Hb). unfold Avg. cbn [Count Sum].
  split.
  - destruct (Z.of_nat (length vs) mod 8 =? 0) eqn:E.
    + apply Z.eqb_eq in E. tauto.
    + apply Z.eqb_neq in E. split; [discriminate | contradiction].
  - intros Hu Hn Hs. pose proof (sumZ_nonneg vs Hu) as H0.
    rewrite (Z.mod_small (Z.of_nat _) 8) by lia.
    destruct (Z.of_nat (length vs) =? 0) eqn:E; [apply Z.eqb_eq in E; lia |].
    rewrite (Z.div_small (Z.of_nat _) 8) by lia.
    rewrite Z.add_0_r, Z.mod_small by lia. reflexivity.
Qed.

Lemma Avg_after_run_witness :
  (Avg (Bucket.load (Bucket.observeAll zeroBucket 9 [10; 20; 31])) = None <->
   Z.of_nat (length [10; 20; 31]) mod 8 = 0) /\
  (Forall is_uint64 [10; 20; 31] -> (1 <= length [10; 20; 31] <= 7)%nat ->
   sumZ [10; 20; 31] < 2 ^ 61 ->
   Avg (Bucket.load (Bucket.observeAll zeroBucket 9 [10; 20; 31])) =
   Some (sumZ [10; 20; 31] / Z.of_nat (length [10; 20; 31]))).
Proof.
  apply (Avg_after_run zeroBucket 9 [10; 20; 31]). left. reflexivity.
Defined.

(** ** More about the ring *)

Lemma nth_error_set_nth_other (l : list bucket) : forall n m b,
  n <> m -> nth_error (set_nth l n b) m = nth_error l m.
Proof.
  induction l as [| x l IH]; intros [| n] [| m] b H; cbn; try reflexivity.
  - congruence.
  - apply IH. congruence.
Qed.

Lemma index_set_nth_other (l : list bucket) (i j : Z) (b : bucket) :
  0 <= i -> j <> i -> index (set_nth l (Z.to_nat i) b) j = index l j.
Proof.
  intros Hi Hj. unfold index. rewrite set_nth_length.
  destruct ((j <? 0) || (Z.of_nat (length l) <=? j)) eqn:E; [reflexivity |].
  apply orb_false_iff in E. destruct E as [E _].
  apply nth_error_set_nth_other. lia.
Qed.

Lemma set_nth_commute (l : list bucket) : forall n m a b,
  n <> m -> set_nth (set_nth l n a) m b = set_nth (set_nth l m b) n a.
Proof.
  induction l as [| x l IH]; intros [| n] [| m] a b H; cbn; try reflexivity.
  - congruence.
  - f_equal. apply IH. congruence.
Qed.

Lemma ring_observe_None (s : latencyStats) (now v : Z) :
  index (buckets s) (bucketIndex now) = None ->
  LatencyStats.observe s now v = None.
Proof.
  intros H. unfold LatencyStats.observe. fold (bucketIndex now).
  now rewrite H.
Qed.

(** X5. A write touches one slot only: [observe] replaces the bucket that the
    second indexes by the observed one and leaves every other slot, and the
    length of the ring, as they were. *)
Theorem ring_observe_frame (s s' : latencyStats) (now v : Z) :
  LatencyStats.observe s now v = Some s' ->
  length (buckets s') = length (buckets s) /\
  (exists b,
      index (buckets s) (bucketIndex now) = Some b /\
      index (buckets s') (bucketIndex now) =
      Some (Bucket.observe b (unixSecond now) v)) /\
  (forall j, j <> bucketIndex now ->
             index (buckets s') j = index (buckets s) j).
Proof.
  intros H.
  destruct (index (buckets s) (bucketIndex now)) as [b |] eqn:Hidx.
  2:{ rewrite ring_observe_None in H by exact Hidx. discriminate. }
  rewrite (ring_observe_Some s now v b Hidx) in H. injection H as <-.
  cbn [buckets]. pose proof (index_Some _ _ _ Hidx) as [Hr _].
  split; [apply set_nth_length |]. split.
  - exists b. split; [reflexivity |]. now apply index_set_nth with (b := b).
  - intros j Hj. apply index_set_nth_other; lia.
Qed.

Lemma ring_observe_frame_witness :
  length (buckets (mkLatencyStats
                     (set_nth (buckets newLatencyStats) 3
                              (Bucket.observe zeroBucket 1700000003 5)))) =
  length (buckets newLatencyStats).
Proof.
  apply (ring_observe_frame newLatencyStats _ 1700000003 5). reflexivity.
Defined.

(** X6. Writes to different slots commute: for two seconds with different
    indices, the two calls leave the same ring (or panic alike) in either
    order. *)
Theorem ring_observe_commute (s : latencyStats) (t1 v1 t2 v2 : Z) :
  bucketIndex t1 <> bucketIndex t2 ->
  observe_then s t1 v1 t2 v2 = observe_then s t2 v2 t1 v1.
Proof.
  intros Hne. unfold observe_then.
  destruct (index (buckets s) (bucketIndex t1)) as [b1 |] eqn:H1;
    destruct (index (buckets s) (bucketIndex t2)) as [b2 |] eqn:H2.
  - pose proof (index_Some _ _ _ H1) as [Hr1 _].
    pose proof (index_Some _ _ _ H2) as [Hr2 _].
    rewrite (ring_observe_Some s t1 v1 b1 H1), (ring_observe_Some s t2 v2 b2 H2).
    rewrite (ring_observe_Some _ t2 v2 b2), (ring_observe_Some _ t1 v1 b1).
    + cbn [buckets]. f_equal. f_equal. apply set_nth_commute. lia.
    + cbn [buckets]. rewrite index_set_nth_other by lia. exact H1.
    + cbn [buckets]. rewrite index_set_nth_other by lia. exact H2.
  - pose proof (index_Some _ _ _ H1) as [Hr1 _].
    rewrite (ring_observe_Some s t1 v1 b1 H1), (ring_observe_None s t2 v2 H2).
    apply ring_observe_None. cbn [buckets].
    destruct (Z_lt_ge_dec (bucketIndex t2) 0) as [L | G].
    + now apply index_negative.
    + rewrite index_set_nth_other by lia. exact H2.
  - pose proof (index_Some _ _ _ H2) as [Hr2 _].
    rewrite (ring_observe_Some s t2 v2 b2 H2), (ring_observe_None s t1 v1 H1).
    symmetry. apply ring_observe_None. cbn [buckets].
    destruct (Z_lt_ge_dec (bucketIndex t1) 0) as [L | G].
    + now apply index_negative.
    + rewrite index_set_nth_other by lia. exact H1.
  - now rewrite (ring_observe_None s t1 v1 H1), (ring_observe_None s t2 v2 H2).
Qed.

Lemma ring_observe_commute_witness :
  observe_then newLatencyStats 1700000003 5 1700000004 6 =
  observe_then newLatencyStats 1700000004 6 1700000003 5.
Proof.
  apply (ring_observe_commute newLatencyStats 1700000003 5 1700000004 6).
  vm_compute. discriminate.
Defined.

Lemma bucketIndex_digit (x : Z) :
  0 <= x ->
  let i := bucketIndex x in
  i = 0 \/ i = 1 \/ i = 2 \/ i = 3 \/ i = 4 \/ i = 5 \/ i = 6 \/ i = 7 \/
  i = 8 \/ i = 9.
Proof.
  intros H. cbv zeta. destruct (bucketIndex_nonneg x H) as [_ H0].
  pose proof (bucketIndex_range x). lia.
Qed.

Lemma distance_by_index (t now : Z) :
  0 <= t -> 0 <= now ->
  (now - t) mod 10 = (bucketIndex now - bucketIndex t) mod 10.
Proof.
  intros Ht Hn.
  destruct (bucketIndex_nonneg t Ht) as [-> _].
  destruct (bucketIndex_nonneg now Hn) as [-> _].
  apply Zminus_mod.
Qed.

(** X7. What a write changes in a snapshot.  After the calls at the second
    [t], the snapshot taken at [now] differs from the one before them at the
    position [(now - t) mod 10] only, where it shows the bucket of [t], and
    not at all when that position is 5 or more.  No second is compared: the
    snapshot at [t + 10] shows the samples of [t] at position 0. *)
Theorem write_shows_in_snapshot (s : latencyStats) (t now : Z) (vs : list Z)
  (b : bucket) :
  wf s -> 0 <= t -> 0 <= now ->
  index (buckets s) (bucketIndex t) = Some b ->
  exists s' st st',
    LatencyStats.observeAll s t vs = Some s' /\
    LatencyStats.getLatestStats s now = Some st /\
    LatencyStats.getLatestStats s' now = Some st' /\
    let d := (now - t) mod 10 in
    (5 <= d -> st' = st) /\
    (d < 5 ->
     nth_error st' (Z.to_nat d) =
     Some (Bucket.load (Bucket.observeAll b t vs)) /\
     forall i, i <> Z.to_nat d -> nth_error st' i = nth_error st i).
Proof.
  intros Hwf Ht Hn Hidx.
  exists (mkLatencyStats
            (set_nth (buckets s) (Z.to_nat (bucketIndex t))
                     (Bucket.observeAll b (unixSecond t) vs))).
  rewrite (ring_observeAll_Some vs s t b Hidx).
  rewrite (distance_by_index t now Ht Hn).
  unfold unixSecond. set (b' := Bucket.observeAll b t vs). clearbody b'.
  rewrite !getLatestStats_unfold.
  pose proof (bucketIndex_digit t Ht) as Et.
  pose proof (bucketIndex_digit now Hn) as En. cbv zeta in Et, En.
  destruct (wf_inv s Hwf) as (b0 & b1 & b2 & b3 & b4 & b5 & b6 & b7 & b8 & b9 & Hbk).
  destruct s as [l]. cbn [buckets] in *. subst l. clear Hwf Hidx.
  repeat (destruct Et as [Et | Et]); rewrite Et;
    repeat (destruct En as [En | En]); rewrite En;
    (eexists; eexists;
     split; [reflexivity |]; split; [reflexivity |]; split; [reflexivity |];
     cbv zeta; split; intros Hd;
     [ first [ reflexivity | exfalso; revert Hd; vm_compute; congruence ]
     | first [ exfalso; revert Hd; vm_compute; congruence
             | split; [reflexivity |];
               intros i Hi;
               do 5 (destruct i as [| i]; [first [reflexivity | exfalso; apply Hi; reflexivity] |]);
               reflexivity ] ]).
Qed.

Lemma write_shows_in_snapshot_witness :
  exists s' st st',
    LatencyStats.observeAll newLatencyStats 1700000003 [5; 6] = Some s' /\
    LatencyStats.getLatestStats newLatencyStats 1700000013 = Some st /\
    LatencyStats.getLatestStats s' 1700000013 = Some st' /\
    let d := (1700000013 - 1700000003) mod 10 in
    (5 <= d -> st' = st) /\
    (d < 5 ->
     nth_error st' (Z.to_nat d) =
     Some (Bucket.load (Bucket.observeAll zeroBucket 1700000003 [5; 6])) /\
     forall i, i <> Z.to_nat d -> nth_error st' i = nth_error st i).
Proof.
  apply (write_shows_in_snapshot newLatencyStats 1700000003 1700000013 [5; 6]
                                 zeroBucket).
  - reflexivity.
  - lia.
  - lia.
  - reflexivity.
Defined.

(** ** More about the aggregations *)

Lemma TotalCount_as_sum (s : Stats) :
  TotalCount s = wrap64 (sumZ (map Count s)).
Proof.
  unfold TotalCount. change 0 with (wrap64 0) at 1.
  now rewrite TotalCount_fold.
Qed.

Lemma sumZ_app (l l' : list Z) : sumZ (l ++ l') = sumZ l + sumZ l'.
Proof.
  induction l as [| x l IH]; cbn; [reflexivity |].
  fold (sumZ (l ++ l')) (sumZ l). lia.
Qed.

(** X8. [TotalCount] composes: over a concatenation it is the wrapped sum of
    the two totals, and it does not depend on the order of the entries. *)
Theorem TotalCount_composes (s1 s2 : Stats) :
  TotalCount [] = 0 /\
  TotalCount (s1 ++ s2) = wrap64 (TotalCount s1 + TotalCount s2) /\
  TotalCount (s2 ++ s1) = TotalCount (s1 ++ s2) /\
  TotalCount (rev s1) = TotalCount s1.
Proof.
  split; [reflexivity |]. rewrite !TotalCount_as_sum, !map_app, !sumZ_app.
  split; [| split].
  - unfold wrap64. now rewrite <- Zplus_mod.
  - f_equal. lia.
  - f_equal. rewrite map_rev. apply sumZ_permutation.
    apply Permutation_sym, Permutation_rev.
Qed.

(** X9. On a snapshot of the ring [TotalCount] cannot wrap: it is the exact
    sum of the five counts, at most 35, and it is 0 exactly when [Avg] would
    divide by zero on every entry. *)
Theorem TotalCount_of_snapshot (s : latencyStats) (now : Z) (st : Stats) :
  wf s ->
  LatencyStats.getLatestStats s now = Some st ->
  TotalCount st = sumZ (map Count st) /\
  0 <= TotalCount st <= 35 /\
  (TotalCount st = 0 <-> Forall (fun x => Avg x = None) st).
Proof.
  intros Hwf Hget.
  destruct (Z_le_gt_dec (bucketIndex now) (-7)) as [L | G].
  { rewrite (getLatestStats_panics s now Hwf L) in Hget. discriminate. }
  destruct (getLatestStats_reads s now Hwf ltac:(lia))
    as (c0 & c1 & c2 & c3 & c4 & _ & _ & _ & _ & _ & E).
  rewrite E in Hget. injection Hget as <-.
  rewrite TotalCount_as_sum. cbn [map sumZ fold_right].
  pose proof (Count_range c0). pose proof (Count_range c1).
  pose proof (Count_range c2). pose proof (Count_range c3).
  pose proof (Count_range c4).
  rewrite Z.add_0_r.
  set (n0 := Count (Bucket.load c0)) in *. set (n1 := Count (Bucket.load c1)) in *.
  set (n2 := Count (Bucket.load c2)) in *. set (n3 := Count (Bucket.load c3)) in *.
  set (n4 := Count (Bucket.load c4)) in *.
  assert (Hw : wrap64 (n0 + (n1 + (n2 + (n3 + n4)))) = n0 + (n1 + (n2 + (n3 + n4)))).
  { unfold wrap64, uint64_mod. apply Z.mod_small.
    change (2 ^ 64) with 18446744073709551616. lia. }
  rewrite Hw. split; [reflexivity |]. split; [lia |].
  assert (Havg : forall c, Avg (Bucket.load c) = None <-> Count (Bucket.load c) = 0).
  { intros c. unfold Avg. destruct (Count (Bucket.load c) =? 0) eqn:Ez.
    - apply Z.eqb_eq in Ez. tauto.
    - apply Z.eqb_neq in Ez. split; [discriminate | contradiction]. }
  split.
  - intros Hz. repeat constructor; apply Havg; fold n0 n1 n2 n3 n4; lia.
  - intros HF.
    inversion HF as [| ? ? A0 HF1]; subst. inversion HF1 as [| ? ? A1 HF2]; subst.
    inversion HF2 as [| ? ? A2 HF3]; subst. inversion HF3 as [| ? ? A3 HF4]; subst.
    inversion HF4 as [| ? ? A4 _]; subst.
    apply Havg in A0, A1, A2, A3, A4. fold n0 in A0. fold n1 in A1.
    fold n2 in A2. fold n3 in A3. fold n4 in A4. lia.
Qed.

Lemma TotalCount_of_snapshot_witness :
  exists s st,
    LatencyStats.observeAll newLatencyStats 1700000003 [5; 6] = Some s /\
    LatencyStats.getLatestStats s 1700000005 = Some st /\
    TotalCount st = sumZ (map Count st) /\
    0 <= TotalCount st <= 35 /\
    (TotalCount st = 0 <-> Forall (fun x => Avg x = None) st).
Proof.
  destruct (LatencyStats.observeAll newLatencyStats 1700000003 [5; 6])
    as [s |] eqn:E; [| discriminate E].
  destruct (LatencyStats.getLatestStats s 1700000005) as [st |] eqn:G.
  - exists s, st. split; [reflexivity |]. split; [exact G |].
    apply (TotalCount_of_snapshot s 1700000005 st); [| exact G].
    injection E as <-. reflexivity.
  - exfalso. injection E as <-. discriminate G.
Defined.

Lemma WeightedAvg_of_snapshot_witness :
  exists s st,
    LatencyStats.observeAll newLatencyStats 1700000003 [5; 6; 7; 8; 9; 10; 11]
    = Some s /\
    LatencyStats.getLatestStats s 1700000003 = Some st /\
    length st = numOfLastStats /\
    Forall (fun x => 0 <= Count x <= 7) st /\
    WeightedAvg st = Some 0.
Proof.
  destruct (LatencyStats.observeAll newLatencyStats 1700000003
                                    [5; 6; 7; 8; 9; 10; 11])
    as [s |] eqn:E; [| discriminate E].
  destruct (LatencyStats.getLatestStats s 1700000003) as [st |] eqn:G.
  - exists s, st. split; [reflexivity |]. split; [exact G |].
    apply (WeightedAvg_of_snapshot s 1700000003 st); [| exact G].
    injection E as <-. reflexivity.
  - exfalso. injection E as <-. discriminate G.
Defined.



(** ** More about interleaved calls *)

Lemma ms_returned_cons (g : goroutine) (gs : list goroutine) :
  ms_returned (g :: gs) = (if returned g then g_ms g else 0) + ms_returned gs.
Proof. reflexivity. Qed.

Lemma ms_returned_set (l : list goroutine) : forall n g g',
  nth_error l n = Some g ->
  ms_returned (set_goroutine l n g') + (if returned g then g_ms g else 0) =
  ms_returned l + (if returned g' then g_ms g' else 0).
Proof.
  induction l as [| x l IH]; intros [| n] g g' H; cbn in H; try discriminate.
  - injection H as ->. cbn [set_goroutine]. rewrite !ms_returned_cons. lia.
  - cbn [set_goroutine]. rewrite !ms_returned_cons.
    specialize (IH n g g' H). lia.
Qed.

Lemma set_goroutine_ms (l : list goroutine) : forall n g g',
  nth_error l n = Some g -> g_ms g' = g_ms g ->
  map g_ms (set_goroutine l n g') = map g_ms l.
Proof.
  induction l as [| x l IH]; intros [| n] g g' H E; cbn in H; try discriminate.
  - injection H as ->. cbn. now rewrite E.
  - cbn. f_equal. now apply IH with (g := g).
Qed.

Lemma step_goroutine_ms (t : Z) (b b' : bucket) (g g' : goroutine) :
  step_goroutine t b g = Some (b', g') -> g_ms g' = g_ms g.
Proof.
  destruct g as [p ms]. unfold step_goroutine. cbn [g_pc g_ms].
  destruct p as [| o | | |].
  - destruct (negb _); intros [= <- <-]; reflexivity.
  - destruct (ts_CAS b o t) as [[] b1]; intros [= <- <-]; reflexivity.
  - intros [= <- <-]. reflexivity.
  - intros [= <- <-]. reflexivity.
  - discriminate.
Qed.

Lemma step_ms (t : Z) (i : nat) (c c' : config) :
  step t i c = Some c' ->
  map g_ms (c_goroutines c') = map g_ms (c_goroutines c).
Proof.
  intros H. destruct (step_inv t i c c' H) as (g & b' & g' & Hg & Hs & ->).
  cbn [c_goroutines]. apply set_goroutine_ms with (g := g); [exact Hg |].
  now apply step_goroutine_ms with (t := t) (b := c_bucket c) (b' := b').
Qed.

Lemma run_ms (t : Z) (sched : list nat) : forall c c',
  run t sched c = Some c' ->
  map g_ms (c_goroutines c') = map g_ms (c_goroutines c).
Proof.
  induction sched as [| i sched IH]; intros c c' H; cbn in H.
  - now injection H as <-.
  - destruct (step t i c) as [c1 |] eqn:E; [| discriminate].
    rewrite (IH c1 c' H). now apply step_ms with (t := t) (i := i).
Qed.

Lemma spawn_ms (b : bucket) (vs : list Z) :
  map g_ms (c_goroutines (spawn b vs)) = vs.
Proof.
  unfold spawn. cbn [c_goroutines]. rewrite map_map. cbn. apply map_id.
Qed.

Lemma ms_returned_all (gs : list goroutine) :
  Forall (fun g => returned g = true) gs ->
  ms_returned gs = sumZ (map g_ms gs).
Proof.
  induction 1 as [| g gs Hg _ IH]; [reflexivity |].
  rewrite ms_returned_cons, Hg, IH. reflexivity.
Qed.

Lemma ms_returned_none (gs : list goroutine) :
  count returned gs = 0%nat -> ms_returned gs = 0.
Proof.
  induction gs as [| g gs IH]; [reflexivity |].
  rewrite count_cons, ms_returned_cons.
  destruct (returned g); [discriminate |]. intros H. rewrite IH by exact H.
  reflexivity.
Qed.

Lemma ms_returned_nonneg (gs : list goroutine) :
  Forall (fun g => 0 <= g_ms g) gs -> 0 <= ms_returned gs.
Proof.
  induction 1 as [| g gs Hg _ IH]; [cbn; lia |].
  rewrite ms_returned_cons. destruct (returned g); lia.
Qed.

(** *** No reset in sight: every schedule gives the sequential result *)

Lemma step_preserves_Steady (t : Z) (b0 : bucket) (i : nat) (c c' : config) :
  Steady t b0 c -> step t i c = Some c' -> Steady t b0 c'.
Proof.
  intros (Hts & Hpc & Hw) Hstep.
  destruct (step_inv t i c c' Hstep) as (g & b' & g' & Hg & Hs & ->).
  destruct c as [b gs]. cbn [c_bucket c_goroutines] in *.
  pose proof (nth_error_Forall _ _ _ _ Hpc Hg) as Hgp.
  destruct g as [p ms]. unfold step_goroutine in Hs. cbn [g_pc g_ms] in Hs.
  pose proof (count_set returned gs i (mkGoroutine p ms)) as Cr.
  pose proof (ms_returned_set gs i (mkGoroutine p ms)) as Mr.
  destruct Hgp as [E | [E | E]]; cbn in E; subst p.
  - rewrite Hts, Z.eqb_refl in Hs. cbn [negb] in Hs. injection Hs as <- <-.
    specialize (Cr (mkGoroutine AtAdd ms) Hg).
    specialize (Mr (mkGoroutine AtAdd ms) Hg).
    cbn [returned g_pc g_ms] in Cr, Mr.
    split; [exact Hts |]. split; cbn [c_bucket c_goroutines].
    + apply set_goroutine_Forall; [exact Hpc |]. right. left. reflexivity.
    + rewrite Hw. f_equal. lia.
  - injection Hs as <- <-.
    specialize (Cr (mkGoroutine Returned ms) Hg).
    specialize (Mr (mkGoroutine Returned ms) Hg).
    cbn [returned g_pc g_ms] in Cr, Mr.
    split; [exact Hts |]. split; cbn [c_bucket c_goroutines].
    + apply set_goroutine_Forall; [exact Hpc |]. right. right. reflexivity.
    + cbn [countAndTotal_Add countAndTotal]. rewrite Hw, composedValue_eq.
      replace (Z.of_nat (count returned (set_goroutine gs i
                 {| g_pc := Returned; g_ms := ms |})))
        with (Z.of_nat (count returned gs) + 1) by lia.
      replace (ms_returned (set_goroutine gs i {| g_pc := Returned; g_ms := ms |}))
        with (ms_returned gs + ms) by lia.
      generalize (Z.of_nat (count returned gs)) (ms_returned gs)
                 (countAndTotal b0).
      intros n m a. wrap64_lia.
  - discriminate.
Qed.

Lemma run_preserves_Steady (t : Z) (b0 : bucket) (sched : list nat) :
  forall c c', Steady t b0 c -> run t sched c = Some c' -> Steady t b0 c'.
Proof.
  induction sched as [| i sched IH]; intros c c' HI H; cbn in H.
  - now injection H as <-.
  - destruct (step t i c) as [c1 |] eqn:E; [| discriminate].
    apply (IH c1 c'); [| exact H].
    now apply step_preserves_Steady with (i := i) (c := c).
Qed.

Lemma spawn_Steady (b : bucket) (vs : list Z) :
  is_uint64 (countAndTotal b) -> Steady (ts b) b (spawn b vs).
Proof.
  intros Hu. pose proof (spawn_goroutines_AtLoad b vs) as Hl.
  split; [reflexivity |]. split.
  - eapply Forall_impl; [| exact Hl]. intros g Hg. now left.
  - assert (Hc : count returned (c_goroutines (spawn b vs)) = 0%nat).
    { apply count_Forall_false. eapply Forall_impl; [| exact Hl].
      intros g Hg. unfold returned. now rewrite Hg. }
    rewrite Hc, (ms_returned_none _ Hc). unfold spawn. cbn [c_bucket].
    rewrite Z.add_0_r. unfold wrap64. symmetry. apply Z.mod_small, Hu.
Qed.

(** X10. When the bucket is already at the second [t] no update is lost:
    however the atomic operations of the goroutines interleave, once all have
    returned the bucket is the one the same calls leave when made one after
    the other. *)
Theorem steady_state_no_lost_update (b : bucket) (vs : list Z)
  (sched : list nat) (c : config) :
  is_uint64 (countAndTotal b) ->
  run (ts b) sched (spawn b vs) = Some c ->
  all_returned c = true ->
  c_bucket c = Bucket.observeAll b (ts b) vs.
Proof.
  intros Hu Hrun Hall.
  destruct (run_preserves_Steady (ts b) b sched _ _ (spawn_Steady b vs Hu) Hrun)
    as (Hts & _ & Hw).
  pose proof (all_returned_Forall c Hall) as Hr.
  rewrite (count_Forall_true returned _ Hr) in Hw.
  rewrite (ms_returned_all _ Hr) in Hw.
  pose proof (run_ms _ _ _ _ Hrun) as Hms. rewrite spawn_ms in Hms.
  assert (Hlen : length (c_goroutines c) = length vs)
    by (rewrite <- Hms; symmetry; apply length_map).
  rewrite Hms, Hlen in Hw.
  destruct (c_bucket c) as [w s]. cbn [countAndTotal ts] in *. subst s.
  destruct vs as [| v vs].
  - cbn in Hw. rewrite Z.add_0_r in Hw. rewrite Hw.
    unfold wrap64. rewrite Z.mod_small by exact Hu. now destruct b.
  - rewrite observeAll_same_second by reflexivity. now rewrite Hw.
Qed.

Lemma steady_state_no_lost_update_witness :
  c_bucket (mkConfig (mkBucket 90 7)
                     [mkGoroutine Returned 5; mkGoroutine Returned 6]) =
  Bucket.observeAll (mkBucket 0 7) (ts (mkBucket 0 7)) [5; 6].
Proof.
  apply (steady_state_no_lost_update (mkBucket 0 7) [5; 6] [1; 0; 0; 1]%nat).
  - unfold is_uint64, uint64_mod. cbn. lia.
  - vm_compute. reflexivity.
  - reflexivity.
Defined.

(** *** At most one reset *)

Lemma step_preserves_cas_sane (t : Z) (i : nat) (c c' : config) :
  Forall (cas_sane t) (c_goroutines c) -> step t i c = Some c' ->
  Forall (cas_sane t) (c_goroutines c').
Proof.
  intros Hsane Hstep.
  destruct (step_inv t i c c' Hstep) as (g & b' & g' & Hg & Hs & ->).
  cbn [c_goroutines]. apply set_goroutine_Forall; [exact Hsane |].
  destruct g as [p ms]. unfold step_goroutine in Hs. cbn [g_pc g_ms] in Hs.
  destruct p as [| o | | |].
  - destruct (ts (c_bucket c) =? t) eqn:E; cbn [negb] in Hs;
      injection Hs as <- <-; intros o Ho; cbn in Ho; [discriminate |].
    injection Ho as <-. now apply Z.eqb_neq.
  - destruct (ts_CAS (c_bucket c) o t) as [[] b1]; injection Hs as <- <-;
      intros o' Ho; discriminate.
  - injection Hs as <- <-. intros o' Ho. discriminate.
  - injection Hs as <- <-. intros o' Ho. discriminate.
  - discriminate.
Qed.

(** What one step does to the second of the bucket. *)
Lemma step_ts (t : Z) (i : nat) (c c' : config) :
  Forall (cas_sane t) (c_goroutines c) -> step t i c = Some c' ->
  if cas_would_win c i
  then ts (c_bucket c) <> t /\ ts (c_bucket c') = t
  else ts (c_bucket c') = ts (c_bucket c).
Proof.
  intros Hsane Hstep.
  destruct (step_inv t i c c' Hstep) as (g & b' & g' & Hg & Hs & ->).
  pose proof (nth_error_Forall _ _ _ _ Hsane Hg) as Hgs.
  unfold cas_would_win. rewrite Hg. cbn [c_bucket].
  destruct g as [p ms]. unfold step_goroutine in Hs. cbn [g_pc g_ms] in *.
  destruct p as [| o | | |].
  - destruct (negb _); injection Hs as <- <-; reflexivity.
  - unfold ts_CAS in Hs. destruct (ts (c_bucket c) =? o) eqn:E;
      injection Hs as <- <-; [| reflexivity].
    apply Z.eqb_eq in E. split; [| reflexivity].
    rewrite E. apply Hgs. reflexivity.
  - injection Hs as <- <-. reflexivity.
  - injection Hs as <- <-. reflexivity.
  - discriminate.
Qed.

Lemma cas_wins_bound (t : Z) (sched : list nat) : forall c,
  Forall (cas_sane t) (c_goroutines c) ->
  (cas_wins t sched c <= 1)%nat /\
  (ts (c_bucket c) = t -> cas_wins t sched c = 0%nat) /\
  (forall c', run t sched c = Some c' ->
              ts (c_bucket c) <> t -> ts (c_bucket c') = t ->
              cas_wins t sched c = 1%nat).
Proof.
  induction sched as [| i sched IH]; intros c Hsane; cbn [cas_wins run].
  - split; [lia |]. split; [reflexivity |].
    intros c' [= <-] Hne He. contradiction.
  - destruct (step t i c) as [c1 |] eqn:E.
    2:{ split; [lia |]. split; [reflexivity |]. discriminate. }
    pose proof (step_ts t i c c1 Hsane E) as Hts.
    destruct (IH c1 (step_preserves_cas_sane t i c c1 Hsane E))
      as (Hle & Hzero & Hone).
    destruct (cas_would_win c i).
    + destruct Hts as [Hne He]. rewrite (Hzero He).
      split; [lia |]. split; [contradiction | reflexivity].
    + rewrite Hts in *. cbn [Nat.add]. split; [exact Hle |].
      split; [exact Hzero | exact Hone].
Qed.

Lemma Inv_final_ts (t : Z) (c : config) :
  Inv t c -> all_returned c = true -> c_goroutines c <> [] ->
  ts (c_bucket c) = t.
Proof.
  intros [_ Hph] Hall Hne.
  pose proof (all_returned_Forall c Hall) as Hr.
  destruct Hph as [_ Hb | Ht _ | k tot Ht _ _ _ _]; try exact Ht.
  destruct (c_goroutines c) as [| g gs]; [congruence |].
  inversion Hb as [| ? ? Hg _]; subst. inversion Hr as [| ? ? Hg' _]; subst.
  destruct g as [p ms]. unfold returned in Hg'. cbn in Hg'.
  destruct Hg as [E | E]; cbn in E; subst p; discriminate.
Qed.

Lemma spawn_cas_sane (b : bucket) (t : Z) (vs : list Z) :
  Forall (cas_sane t) (c_goroutines (spawn b vs)).
Proof.
  eapply Forall_impl; [| apply spawn_goroutines_AtLoad].
  intros g E o Ho. congruence.
Qed.

(** X11. The CAS lets one goroutine through at most: along every schedule at
    most one CAS succeeds, none when the bucket is already at the second [t],
    and exactly one in every complete run on a bucket of another second. *)
Theorem at_most_one_reset (b : bucket) (t : Z) (vs : list Z) (sched : list nat) :
  (cas_wins t sched (spawn b vs) <= 1)%nat /\
  (ts b = t -> cas_wins t sched (spawn b vs) = 0%nat) /\
  (forall c, ts b <> t -> vs <> [] ->
             run t sched (spawn b vs) = Some c -> all_returned c = true ->
             cas_wins t sched (spawn b vs) = 1%nat).
Proof.
  destruct (cas_wins_bound t sched (spawn b vs) (spawn_cas_sane b t vs))
    as (Hle & Hzero & Hone).
  split; [exact Hle |]. split; [exact Hzero |].
  intros c Hne Hvs Hrun Hall. apply (Hone c Hrun Hne).
  apply Inv_final_ts; [| exact Hall |].
  - apply (run_preserves_Inv t sched (spawn b vs) c); [| exact Hrun].
    apply spawn_Inv; [now left | exact Hvs].
  - intros E. pose proof (run_length t sched _ _ Hrun) as Hlen.
    rewrite E in Hlen. unfold spawn in Hlen. cbn in Hlen.
    rewrite length_map in Hlen. destruct vs; [congruence | discriminate].
Qed.

Lemma at_most_one_reset_witness :
  cas_wins 1700000000 [0; 1; 1; 0; 0; 1; 1]%nat (spawn zeroBucket [5; 6]) = 1%nat.
Proof.
  pose proof (proj2 (proj2 (at_most_one_reset zeroBucket 1700000000 [5; 6]
                                              [0; 1; 1; 0; 0; 1; 1]%nat)))
    as H.
  destruct (run 1700000000 [0; 1; 1; 0; 0; 1; 1]%nat (spawn zeroBucket [5; 6]))
    as [c |] eqn:E; [| exfalso; revert E; vm_compute; discriminate].
  apply (H c).
  - cbn. lia.
  - discriminate.
  - reflexivity.
  - revert E. vm_compute. intros [= <-]. reflexivity.
Defined.

(** *** What survives a reset *)

Lemma step_preserves_Surviving (t : Z) (i : nat) (c c' : config) :
  Surviving t c -> step t i c = Some c' -> Surviving t c'.
Proof.
  intros [Hms Hk] Hstep.
  destruct (step_inv t i c c' Hstep) as (g & b' & g' & Hg & Hs & ->).
  pose proof (step_goroutine_ms t _ _ _ _ Hs) as Hsame.
  destruct c as [b gs]. cbn [c_bucket c_goroutines] in *.
  pose proof (nth_error_Forall _ _ _ _ Hms Hg) as Hg0. cbn beta in Hg0.
  assert (Hms' : Forall (fun g => 0 <= g_ms g) (set_goroutine gs i g')).
  { apply set_goroutine_Forall; [exact Hms |]. cbn beta. lia. }
  split; [exact Hms' |]. cbn [c_bucket c_goroutines].
  pose proof (count_set is_store gs i g g' Hg) as Cs.
  pose proof (count_set returned gs i g g' Hg) as Cr.
  pose proof (ms_returned_set gs i g g' Hg) as Mr.
  destruct g as [p ms]. unfold step_goroutine in Hs. cbn [g_pc g_ms] in Hs.
  cbn [g_ms] in Hg0. intros Ht Hns.
  destruct p as [| o | | |].
  - (* Load *)
    assert (Hb : b' = b) by (destruct (negb _); now injection Hs as <- _).
    assert (Hg' : is_store g' = false /\ returned g' = false)
      by (destruct (negb _); injection Hs as _ <-; split; reflexivity).
    destruct Hg' as [E1 E2]. rewrite E1 in Cs. rewrite E2 in Cr, Mr.
    cbn [is_store returned g_pc] in Cs, Cr, Mr. subst b'.
    destruct (Hk Ht ltac:(lia)) as (k & tot & Hw & Hle & Hb & He).
    exists k, tot. repeat split; first [exact Hw | lia].
  - (* CAS *)
    unfold ts_CAS in Hs. destruct (ts b =? o) eqn:E; injection Hs as <- <-.
    + cbn [is_store g_pc] in Cs. lia.
    + cbn [is_store returned g_pc] in Cs, Cr, Mr.
      destruct (Hk Ht ltac:(lia)) as (k & tot & Hw & Hle & Hb & He).
      exists k, tot. repeat split; first [exact Hw | lia].
  - (* Store *)
    injection Hs as <- <-. cbn [is_store returned g_pc] in Cs, Cr, Mr.
    exists 0%nat, 0. cbn [countAndTotal_Store countAndTotal].
    pose proof (ms_returned_nonneg _ Hms') as Hnn.
    split; [reflexivity |]. split; [lia |]. split; [lia |].
    intros E0. symmetry in E0. rewrite (ms_returned_none _ E0). reflexivity.
  - (* Add *)
    injection Hs as <- <-. cbn [is_store returned g_pc g_ms] in Cs, Cr, Mr.
    cbn [countAndTotal_Add countAndTotal ts] in *.
    destruct (Hk Ht ltac:(lia)) as (k & tot & Hw & Hle & Hb & He).
    exists (S k), (tot + ms). split; [| split; [lia | split; [lia |]]].
    + rewrite Hw, composedValue_eq, Nat2Z.inj_succ.
      generalize (Z.of_nat k). intros z. wrap64_lia.
    + intros E0. assert (E1 : k = count returned gs) by lia.
      specialize (He E1). lia.
  - discriminate.
Qed.

Lemma run_preserves_Surviving (t : Z) (sched : list nat) : forall c c',
  Surviving t c -> run t sched c = Some c' -> Surviving t c'.
Proof.
  induction sched as [| i sched IH]; intros c c' HI H; cbn in H.
  - now injection H as <-.
  - destruct (step t i c) as [c1 |] eqn:E; [| discriminate].
    apply (IH c1 c'); [| exact H].
    now apply step_preserves_Surviving with (i := i) (c := c).
Qed.

Lemma spawn_Surviving (b : bucket) (t : Z) (vs : list Z) :
  clean_for b t -> Forall is_uint64 vs -> Surviving t (spawn b vs).
Proof.
  intros Hclean Hu. pose proof (spawn_goroutines_AtLoad b vs) as Hl.
  assert (Hc : count returned (c_goroutines (spawn b vs)) = 0%nat).
  { apply count_Forall_false. eapply Forall_impl; [| exact Hl].
    intros g Hg. unfold returned. now rewrite Hg. }
  split.
  - unfold spawn. cbn [c_goroutines]. apply Forall_map. cbn.
    eapply Forall_impl; [| exact Hu]. unfold is_uint64. intros v Hv. lia.
  - intros Ht _. exists 0%nat, 0. rewrite Hc, (ms_returned_none _ Hc).
    unfold spawn, clean_for in *. cbn [c_bucket] in *.
    destruct Hclean as [H | H]; [contradiction |]. rewrite H.
    split; [reflexivity |]. split; [lia |]. split; [lia |]. reflexivity.
Qed.

(** X12. A race on the reset loses samples, it never invents any.  For up to
    seven goroutines whose samples fit the sum field, on a bucket holding no
    sample of the second, the loaded Sum is at most the sum of the samples
    under every schedule, and it is exactly that sum whenever the loaded Count
    shows that no call was lost. *)
Theorem concurrent_sum_never_inflated (b : bucket) (t : Z) (vs : list Z)
  (sched : list nat) (c : config) :
  clean_for b t -> vs <> [] ->
  Forall is_uint64 vs -> (length vs <= 7)%nat -> sumZ vs < 2 ^ 61 ->
  run t sched (spawn b vs) = Some c ->
  all_returned c = true ->
  0 <= Sum (Bucket.load (c_bucket c)) <= sumZ vs /\
  (Count (Bucket.load (c_bucket c)) = Z.of_nat (length vs) ->
   Sum (Bucket.load (c_bucket c)) = sumZ vs).
Proof.
  intros Hclean Hne Hu Hn Hs Hrun Hall.
  pose proof (run_preserves_Inv t sched _ _ (spawn_Inv b t vs Hclean Hne) Hrun)
    as HI.
  pose proof (run_preserves_Surviving t sched _ _
                (spawn_Surviving b t vs Hclean Hu) Hrun) as [_ HK].
  pose proof (run_length t sched _ _ Hrun) as Hlen.
  assert (Hm : length (c_goroutines (spawn b vs)) = length vs)
    by (unfold spawn; cbn; apply length_map).
  rewrite Hm in Hlen.
  assert (Hgs : c_goroutines c <> []).
  { intros E. rewrite E in Hlen. destruct vs; [congruence | discriminate]. }
  pose proof (Inv_final_ts t c HI Hall Hgs) as Hts.
  pose proof (all_returned_Forall c Hall) as Hr.
  assert (Hns : count is_store (c_goroutines c) = 0%nat).
  { apply count_Forall_false. eapply Forall_impl; [| exact Hr].
    intros [p ms]. unfold returned, is_store. cbn. destruct p; congruence. }
  destruct (HK Hts Hns) as (k & tot & Hw & Hle & Hb & He).
  rewrite (count_Forall_true returned _ Hr), Hlen in Hle, He.
  rewrite (ms_returned_all _ Hr) in Hb, He.
  pose proof (run_ms _ _ _ _ Hrun) as Hms. rewrite spawn_ms in Hms.
  rewrite Hms in Hb, He.
  unfold Bucket.load. cbn [Count Sum]. rewrite Hw, packed_count, packed_sum.
  rewrite (Z.mod_small (Z.of_nat k) 8) by lia.
  rewrite (Z.div_small (Z.of_nat k) 8) by lia.
  rewrite Z.add_0_r, (Z.mod_small tot) by lia.
  split; [lia |]. intros E. apply He. lia.
Qed.

Lemma concurrent_sum_never_inflated_witness :
  0 <= Sum (Bucket.load (mkBucket 41 1700000000)) <= sumZ [5; 6] /\
  (Count (Bucket.load (mkBucket 41 1700000000)) = Z.of_nat (length [5; 6]) ->
   Sum (Bucket.load (mkBucket 41 1700000000)) = sumZ [5; 6]).
Proof.
  assert (Hu : Forall is_uint64 [5; 6]).
  { repeat constructor; unfold is_uint64, uint64_mod; cbn; lia. }
  apply (concurrent_sum_never_inflated zeroBucket 1700000000 [5; 6]
           [0; 0; 1; 1; 0; 0]%nat
           (mkConfig (mkBucket 41 1700000000)
                     [mkGoroutine Returned 5; mkGoroutine Returned 6])).
  - left. cbn. lia.
  - discriminate.
  - exact Hu.
  - cbn. lia.
  - cbn. lia.
  - vm_compute. reflexivity.
  - reflexivity.
Defined.

Lemma same_slot_iff (t1 t2 : Z) :
  0 <= t1 -> 0 <= t2 ->
  (bucketIndex t1 = bucketIndex t2 <-> (t2 - t1) mod 10 = 0).
Proof.
  intros H1 H2.
  destruct (bucketIndex_nonneg t1 H1) as [-> _].
  destruct (bucketIndex_nonneg t2 H2) as [-> _].
  split; intros H; Z.to_euclidean_division_equations; lia.
Qed.

(** X13. Two seconds at or after the epoch share a slot exactly when they
    differ by a multiple of 10.  When they do and are different, the calls for
    the second one erase what the slot held for the first, whether the second
    one is later or earlier: the slot is left as a zeroed bucket would be
    after them. *)
Theorem colliding_seconds_overwrite (s : latencyStats) (t1 t2 : Z)
  (ws vs : list Z) :
  wf s -> 0 <= t1 -> 0 <= t2 ->
  (bucketIndex t1 = bucketIndex t2 <-> (t2 - t1) mod 10 = 0) /\
  (t1 <> t2 -> (t2 - t1) mod 10 = 0 -> ws <> [] -> vs <> [] ->
   exists s1 s2,
     LatencyStats.observeAll s t1 ws = Some s1 /\
     LatencyStats.observeAll s1 t2 vs = Some s2 /\
     index (buckets s2) (bucketIndex t1) =
     Some (Bucket.observeAll (mkBucket 0 t2) t2 vs)).
Proof.
  intros Hwf H1 H2. pose proof (same_slot_iff t1 t2 H1 H2) as Hiff.
  split; [exact Hiff |].
  intros Hne Hmod Hws Hvs. apply Hiff in Hmod.
  destruct (bucketIndex_nonneg t1 H1) as [_ Hi1].
  pose proof (bucketIndex_range t1) as Hr1.
  destruct (index_in_range s (bucketIndex t1) Hwf ltac:(lia)) as [b Hb].
  pose proof (ring_observeAll_Some ws s t1 b Hb) as Hrun1.
  set (b1 := Bucket.observeAll b (unixSecond t1) ws) in *.
  set (s1 := mkLatencyStats _) in Hrun1.
  assert (Hb1 : index (buckets s1) (bucketIndex t2) = Some b1).
  { rewrite <- Hmod. unfold s1. cbn [buckets].
    now apply index_set_nth with (b := b). }
  pose proof (ring_observeAll_Some vs s1 t2 b1 Hb1) as Hrun2.
  set (s2 := mkLatencyStats _) in Hrun2.
  exists s1, s2. split; [exact Hrun1 |]. split; [exact Hrun2 |].
  unfold s2. cbn [buckets]. rewrite Hmod.
  rewrite (index_set_nth _ _ b1) by exact Hb1. f_equal.
  apply observeAll_reset; [| exact Hvs].
  unfold b1. rewrite observeAll_ts by exact Hws. exact Hne.
Qed.

Lemma colliding_seconds_overwrite_witness :
  exists s1 s2,
    LatencyStats.observeAll newLatencyStats 1700000023 [5; 6] = Some s1 /\
    LatencyStats.observeAll s1 1700000003 [7] = Some s2 /\
    index (buckets s2) (bucketIndex 1700000023) =
    Some (Bucket.observeAll (mkBucket 0 1700000003) 1700000003 [7]).
Proof.
  apply (colliding_seconds_overwrite newLatencyStats 1700000023 1700000003
                                     [5; 6] [7]).
  - reflexivity.
  - lia.
  - lia.
  - lia.
  - reflexivity.
  - discriminate.
  - discriminate.
Defined.
